(** * RGSX feed builder: a shallow embedding of [scripts/build_feed.py]

    The script turns the RGSX cache (a systems list and one games file per
    system, all JSON) into one feed document.  Every value the script handles
    comes out of [json.load] or out of the environment, so the embedding works
    on JSON values, and a Python exception is an explicit [Raise] result.
    The calls that reach outside the program (reading a file, printing,
    making the output directory, opening and writing the output file) take
    their outcome from a [World]; a run gives the status it returns or the
    exception that escapes it, the documents it emitted, and the files it
    left emptied or partial.

    Conventions.
    - A Python [str] is the list of its code points ([str]); [lit] turns an
      ASCII literal of the source into such a list.
    - Python's [None] and JSON's [null] are the same value, [JNull]; a
      [dict.get] that finds nothing returns it.
    - A [dict] keeps insertion order and is an association list; [json.load]
      never produces a repeated key, and lookup takes the first binding.
    - [str.strip], [re.sub] with [ROM_EXT_RE], [urllib.parse.unquote] and
      [posixpath.splitext] are written out in full, for every code point.
      [str.lower] (Unicode case tables), the formatting of a value inside
      an f-string and [pathlib]'s [/] are left to the Python runtime: they
      are the fields of [PyEnv], and every theorem holds for every such
      environment.
    - Logging changes no result and is left out. *)

From Stdlib Require Import List NArith ZArith String Ascii Bool Lia PrimFloat.
Import ListNotations.

Set Implicit Arguments.
Set Warnings "-register-all".

(* ------------------------------------------------------------------ *)
(** ** Python strings *)

Definition str := list N.

Definition chr (c : ascii) : N := N_of_ascii c.
Arguments chr c%_char : simpl never.

Definition lit (s : string) : str := map N_of_ascii (list_ascii_of_string s).
Arguments lit s%_string : simpl never.

Fixpoint str_eqb (a b : str) : bool :=
  match a, b with
  | [], [] => true
  | x :: a', y :: b' => N.eqb x y && str_eqb a' b'
  | _, _ => false
  end.

Definition is_empty {A : Type} (l : list A) : bool :=
  match l with [] => true | _ :: _ => false end.

(** [str.isspace] on one code point: the code points [str.strip()] removes. *)
Definition whitespace : list N :=
  [9; 10; 11; 12; 13; 28; 29; 30; 31; 32; 133; 160; 5760;
   8192; 8193; 8194; 8195; 8196; 8197; 8198; 8199; 8200; 8201; 8202;
   8232; 8233; 8239; 8287; 12288]%N.

Definition is_space (c : N) : bool := existsb (N.eqb c) whitespace.

Fixpoint lstrip_by (f : N -> bool) (s : str) : str :=
  match s with
  | [] => []
  | c :: s' => if f c then lstrip_by f s' else s
  end.

Definition rstrip_by (f : N -> bool) (s : str) : str :=
  rev (lstrip_by f (rev s)).

(** [s.strip()] *)
Definition strip (s : str) : str := rstrip_by is_space (lstrip_by is_space s).

(** [s.lstrip(c)] and [s.rstrip(c)] for a one-character argument. *)
Definition lstrip_char (c : N) (s : str) : str := lstrip_by (N.eqb c) s.
Definition rstrip_char (c : N) (s : str) : str := rstrip_by (N.eqb c) s.

(** [s.split(sep)] for a one-character separator: never the empty list. *)
Fixpoint split (sep : N) (s : str) : list str :=
  match s with
  | [] => [[]]
  | c :: s' =>
      if N.eqb c sep then [] :: split sep s'
      else match split sep s' with
           | h :: t => (c :: h) :: t
           | [] => [[c]]
           end
  end.

(** [parts[-1]] of a list of strings that [split] made. *)
Definition last_part (parts : list str) : str := last parts [].

(** *** [urllib.parse.unquote]

    The string is cut into ASCII runs and the text between them.  Inside an
    ASCII run every [%XX] with two hexadecimal digits becomes the byte [XX],
    every other character its own byte, and the bytes of the run are decoded
    as UTF-8 with [errors='replace']; a character outside ASCII is copied and
    ends the run. *)
Inductive piece : Type :=
| Byte (b : N)
| Raw (c : N).

Definition hexval (c : N) : option N :=
  if (48 <=? c)%N && (c <=? 57)%N then Some (c - 48)%N
  else if (65 <=? c)%N && (c <=? 70)%N then Some (c - 55)%N
  else if (97 <=? c)%N && (c <=? 102)%N then Some (c - 87)%N
  else None.

Fixpoint pieces (s : str) : list piece :=
  match s with
  | [] => []
  | c :: rest =>
      if (c <? 128)%N then
        if N.eqb c (chr "%") then
          match rest with
          | h1 :: h2 :: rest2 =>
              match hexval h1, hexval h2 with
              | Some a, Some b => Byte (16 * a + b) :: pieces rest2
              | _, _ => Byte c :: pieces rest
              end
          | _ => Byte c :: pieces rest
          end
        else Byte c :: pieces rest
      else Raw c :: pieces rest
  end.

Definition replacement : N := 65533%N.

Definition between (lo hi b : N) : bool := (lo <=? b)%N && (b <=? hi)%N.

(** The range of the second byte after the lead byte [b0] of a three- or
    four-byte sequence (overlong forms, surrogates and code points above
    U+10FFFF are not UTF-8). *)
Definition second_range (b0 : N) : N * N :=
  if N.eqb b0 224 then (160, 191)%N
  else if N.eqb b0 237 then (128, 159)%N
  else if N.eqb b0 240 then (144, 191)%N
  else if N.eqb b0 244 then (128, 143)%N
  else (128, 191)%N.

Fixpoint utf8_replace (ps : list piece) : str :=
  match ps with
  | [] => []
  | Raw c :: rest => c :: utf8_replace rest
  | Byte b0 :: rest =>
      if (b0 <? 128)%N then b0 :: utf8_replace rest
      else if between 194 223 b0 then
        match rest with
        | Byte b1 :: rest1 =>
            if between 128 191 b1
            then ((b0 - 192) * 64 + (b1 - 128))%N :: utf8_replace rest1
            else replacement :: utf8_replace rest
        | _ => replacement :: utf8_replace rest
        end
      else if between 224 239 b0 then
        match rest with
        | Byte b1 :: rest1 =>
            if between (fst (second_range b0)) (snd (second_range b0)) b1 then
              match rest1 with
              | Byte b2 :: rest2 =>
                  if between 128 191 b2
                  then ((b0 - 224) * 4096 + (b1 - 128) * 64 + (b2 - 128))%N
                         :: utf8_replace rest2
                  else replacement :: utf8_replace rest1
              | _ => replacement :: utf8_replace rest1
              end
            else replacement :: utf8_replace rest
        | _ => replacement :: utf8_replace rest
        end
      else if between 240 244 b0 then
        match rest with
        | Byte b1 :: rest1 =>
            if between (fst (second_range b0)) (snd (second_range b0)) b1 then
              match rest1 with
              | Byte b2 :: rest2 =>
                  if between 128 191 b2 then
                    match rest2 with
                    | Byte b3 :: rest3 =>
                        if between 128 191 b3
                        then ((b0 - 240) * 262144 + (b1 - 128) * 4096
                              + (b2 - 128) * 64 + (b3 - 128))%N
                               :: utf8_replace rest3
                        else replacement :: utf8_replace rest2
                    | _ => replacement :: utf8_replace rest2
                    end
                  else replacement :: utf8_replace rest1
              | _ => replacement :: utf8_replace rest1
              end
            else replacement :: utf8_replace rest
        | _ => replacement :: utf8_replace rest
        end
      else replacement :: utf8_replace rest
  end.

Definition unquote (s : str) : str := utf8_replace (pieces s).

(** *** [os.path.splitext] (POSIX: separator [/], extension separator [.]) *)

Fixpoint rfind_from (c : N) (p : str) (i : Z) (found : Z) : Z :=
  match p with
  | [] => found
  | x :: p' => rfind_from c p' (i + 1)%Z (if N.eqb x c then i else found)
  end.

(** [p.rfind(c)]: the index of the last [c], or [-1]. *)
Definition rfind (c : N) (p : str) : Z := rfind_from c p 0%Z (-1)%Z.

(** [p[i:j]] for [0 <= i]. *)
Definition slice (p : str) (i j : Z) : str :=
  firstn (Z.to_nat (j - i)) (skipn (Z.to_nat i) p).

Definition splitext (p : str) : str * str :=
  let sepIndex := rfind (chr "/") p in
  let dotIndex := rfind (chr ".") p in
  if (sepIndex <? dotIndex)%Z then
    (* skip all leading dots: the first other character before the last dot
       makes that dot the start of the extension *)
    if existsb (fun c => negb (N.eqb c (chr "."))) (slice p (sepIndex + 1) dotIndex)
    then (firstn (Z.to_nat dotIndex) p, skipn (Z.to_nat dotIndex) p)
    else (p, [])
  else (p, []).

(* ------------------------------------------------------------------ *)
(** ** Python values, as [json.load] produces them *)

Inductive json : Type :=
| JNull
| JBool (b : bool)
| JInt (z : Z)
| JFloat (f : float)
| JStr (s : str)
| JList (elems : list json)
| JDict (entries : list (str * json)).

Definition dict := list (str * json).

(** [bool(v)] *)
Definition truthy (v : json) : bool :=
  match v with
  | JNull => false
  | JBool b => b
  | JInt z => negb (Z.eqb z 0)
  | JFloat f => negb (PrimFloat.is_zero f)
  | JStr s => negb (is_empty s)
  | JList l => negb (is_empty l)
  | JDict d => negb (is_empty d)
  end.

(** [a or b], for operands that cannot raise. *)
Definition py_or (a b : json) : json := if truthy a then a else b.

(** [d.get(k)] for a [str] key: the value, or [None]. *)
Fixpoint get (d : dict) (k : str) : json :=
  match d with
  | [] => JNull
  | (k', v) :: d' => if str_eqb k' k then v else get d' k
  end.

(** [k in d] *)
Fixpoint has_key (d : dict) (k : str) : bool :=
  match d with
  | [] => false
  | (k', _) :: d' => str_eqb k' k || has_key d' k
  end.

(** [d[k] = v]: an existing key keeps its place, a new one goes last. *)
Fixpoint set (d : dict) (k : str) (v : json) : dict :=
  match d with
  | [] => [(k, v)]
  | (k', v') :: d' => if str_eqb k' k then (k, v) :: d' else (k', v') :: set d' k v
  end.

(** *** Exceptions *)

Inductive exn : Type :=
| AttributeError   (* a method the value does not have *)
| TypeError        (* an unhashable key, a value that is not iterable *)
| UnicodeDecodeError   (* a file whose bytes are not UTF-8 *)
| OSError
| ValueError       (* a NUL in a path, an integer beyond the digit limit *)
| RecursionError.  (* a value nested beyond the recursion limit *)

Inductive pyres (A : Type) : Type :=
| Ok (a : A)
| Raise (e : exn).
Arguments Ok {A} a.
Arguments Raise {A} e.

Definition bind {A B : Type} (m : pyres A) (k : A -> pyres B) : pyres B :=
  match m with
  | Ok a => k a
  | Raise e => Raise e
  end.

Notation "x <- m ;; k" := (bind m (fun x => k))
  (at level 61, m at next level, right associativity).

(** The [dict] behind [obj.get]: only a [dict] has the method. *)
Definition get_method (obj : json) : pyres dict :=
  match obj with
  | JDict d => Ok d
  | _ => Raise AttributeError
  end.

(** [d.get(key)] for a key that is any value: a [list] or [dict] key cannot
    be hashed, and no other key than a [str] is ever in a loaded [dict]. *)
Definition get_key (d : dict) (key : json) : pyres json :=
  match key with
  | JStr k => Ok (get d k)
  | JList _ | JDict _ => Raise TypeError
  | _ => Ok JNull
  end.

(** [obj.get(key)] *)
Definition py_get (obj key : json) : pyres json :=
  d <- get_method obj ;; get_key d key.

(** [for x in v]: the elements of a list, the keys of a [dict], the
    characters of a [str]. *)
Definition py_iter (v : json) : pyres (list json) :=
  match v with
  | JList l => Ok l
  | JDict d => Ok (map (fun kv => JStr (fst kv)) d)
  | JStr s => Ok (map (fun c => JStr [c]) s)
  | _ => Raise TypeError
  end.

(** [v.strip()] and [v.lstrip("/")]: methods of [str] only. *)
Definition str_strip (v : json) : pyres str :=
  match v with
  | JStr s => Ok (strip s)
  | _ => Raise AttributeError
  end.

Definition str_lstrip_slash (v : json) : pyres str :=
  match v with
  | JStr s => Ok (lstrip_char (chr "/") s)
  | _ => Raise AttributeError
  end.

(** A [for] loop whose body updates the loop's state or raises. *)
Fixpoint for_each {A S : Type} (body : A -> S -> pyres S) (l : list A) (s : S)
  : pyres S :=
  match l with
  | [] => Ok s
  | x :: l' => s' <- body x s ;; for_each body l' s'
  end.

(** *** What the embedding takes from the Python runtime *)

Class PyEnv : Type := {
  (** [s.lower()] *)
  lower : str -> str;
  (** [format(v)], the text of [{v}] inside an f-string *)
  format_value : json -> str;
  format_value_str : forall s, format_value (JStr s) = s;
  (** [dir / name] of [pathlib] *)
  joinpath : str -> str -> str
}.

(** An environment for evaluating examples: exact on ASCII strings, on
    string values and on relative names. *)
Definition ascii_lower (s : str) : str :=
  map (fun c => if between 65 90 c then (c + 32)%N else c) s.

Definition format_str_only (v : json) : str :=
  match v with
  | JStr s => s
  | _ => []
  end.

#[export] Instance ascii_env : PyEnv := {
  lower := ascii_lower;
  format_value := format_str_only;
  format_value_str := fun s => eq_refl;
  joinpath := fun dir name => dir ++ chr "/" :: name
}.

(* ------------------------------------------------------------------ *)
(** ** [ROM_EXT_RE]

    [re.compile(r"\.(zip|7z|...|img)$", re.IGNORECASE)]: a dot, one of the
    alternatives, then [$], which holds at the end of the string and also
    just before a newline that ends the string. *)

Definition ROM_EXTS : list str :=
  [lit "zip"; lit "7z"; lit "chd"; lit "rar"; lit "iso"; lit "bin"; lit "cue";
   lit "gba"; lit "gbc"; lit "gb"; lit "nes"; lit "sfc"; lit "smc"; lit "smd";
   lit "md"; lit "pce"; lit "iso"; lit "img"].

(** A pattern character [p] (a lower-case letter, a digit) against the
    character [c] under [re.IGNORECASE]: the letter in either case, and the
    characters Unicode folds to it (dotted and dotless I for [i], long s for
    [s], the Kelvin sign for [k]). *)
Definition ichar (p c : N) : bool :=
  N.eqb c p
  || (between 97 122 p && N.eqb c (p - 32))
  || (N.eqb p (chr "i") && (N.eqb c 304 || N.eqb c 305))
  || (N.eqb p (chr "s") && N.eqb c 383)
  || (N.eqb p (chr "k") && N.eqb c 8490).

Fixpoint imatch (pat s : str) : bool :=
  match pat, s with
  | [], [] => true
  | p :: pat', c :: s' => ichar p c && imatch pat' s'
  | _, _ => false
  end.

(** [e] is one of the alternatives, in any case. *)
Definition is_rom_ext (e : str) : bool := existsb (fun x => imatch x e) ROM_EXTS.

(** A match of the whole pattern that starts at the head of [s]: the text
    left after it (nothing, or the final newline). *)
Definition match_here (s : str) : option str :=
  match s with
  | [] => None
  | c :: e =>
      if N.eqb c (chr ".") then
        if is_rom_ext e then Some []
        else match rev e with
             | nl :: e' =>
                 if N.eqb nl 10 && is_rom_ext (rev e') then Some [nl] else None
             | [] => None
             end
      else None
  end.

(** [ROM_EXT_RE.sub("", s)]: the leftmost match is removed; the text after
    it is too short to hold another one. *)
Fixpoint ROM_EXT_RE_sub (s : str) : str :=
  match s with
  | [] => []
  | c :: s' =>
      match match_here s with
      | Some rest => rest
      | None => c :: ROM_EXT_RE_sub s'
      end
  end.

(* ------------------------------------------------------------------ *)
(** ** The functions of [build_feed.py] *)

Section BuildFeed.
Context {env : PyEnv}.

(** [v.lower()]: a method of [str] only. *)
Definition str_lower (v : json) : pyres str :=
  match v with
  | JStr s => Ok (lower s)
  | _ => Raise AttributeError
  end.

(** The loop over [mapping.items()] in [map_system_name]: the value of the
    first key whose lower-casing is [lowered]; [None] when it runs out. *)
Fixpoint scan_items (lowered : str) (items : dict) : json :=
  match items with
  | [] => JNull
  | (key, value) :: items' =>
      if str_eqb (lower key) lowered then value else scan_items lowered items'
  end.

(** The end of [map_system_name], reached when neither the name nor the
    folder gave a mapping. *)
Definition scan_mapping (name mapping : json) : pyres json :=
  lowered <- str_lower name ;;
  items <- get_method mapping ;;
  Ok (scan_items lowered items).

Definition map_system_name (system mapping : json) : pyres json :=
  sys <- get_method system ;;
  let name := py_or (get sys (lit "name")) (get sys (lit "platform_name")) in
  if negb (truthy name) then Ok JNull
  else
    mapped <- py_get mapping name ;;
    if truthy mapped then Ok mapped
    else
      let folder := get sys (lit "folder") in
      if truthy folder then
        exact <- py_get mapping folder ;;
        mapped <-
          (if truthy exact then Ok exact
           else lowered <- str_lower folder ;; py_get mapping (JStr lowered)) ;;
        if truthy mapped then Ok mapped
        else
          (* Attempt case-insensitive lookup when exact match fails. *)
          scan_mapping name mapping
      else scan_mapping name mapping.

Definition resolve_rom_url (game : dict) (rom_prefix : option str) : pyres json :=
  let url := py_or (py_or (get game (lit "url")) (get game (lit "rom")))
                   (get game (lit "href")) in
  if truthy url then Ok url
  else
    match rom_prefix with
    | Some prefix =>
        if negb (is_empty prefix) then
          let candidate := py_or (get game (lit "path")) (get game (lit "rom_path")) in
          if truthy candidate then
            stripped <- str_lstrip_slash candidate ;;
            Ok (JStr (prefix ++ chr "/" :: stripped))
          else Ok JNull
        else Ok JNull
    | None => Ok JNull
    end.

Definition extract_thumbnail (game : dict) : json :=
  py_or (py_or (get game (lit "img")) (get game (lit "thumbnail")))
        (get game (lit "image")).

Definition extract_background (game : dict) : json :=
  py_or (py_or (get game (lit "background")) (get game (lit "banner")))
        (get game (lit "screenshot")).

Definition normalize_game_entry (entry : json) : dict :=
  match entry with
  | JDict d => d
  | JList l =>
      let normalized : dict := [] in
      let normalized :=
        if truthy (JList l) then set normalized (lit "title") (nth 0 l JNull)
        else normalized in
      let normalized :=
        if (1 <? List.length l)%nat then set normalized (lit "url") (nth 1 l JNull)
        else normalized in
      let normalized :=
        if (2 <? List.length l)%nat then set normalized (lit "size") (nth 2 l JNull)
        else normalized in
      normalized
  | JStr s => [(lit "title", JStr s)]
  | _ => []
  end.

Definition derive_title_from_url (url : json) : pyres json :=
  if negb (truthy url) then Ok JNull
  else
    match url with
    | JStr u =>
        let segment := unquote (last_part (split (chr "/") u)) in
        Ok (py_or (JStr (fst (splitext segment))) (JStr segment))
    | _ => Raise AttributeError   (* no [split] on this value *)
    end.

(** [v or ""] where [v] is a [str] or [None] *)
Definition str_or_empty (v : json) : str :=
  match py_or v (JStr []) with
  | JStr s => s
  | _ => []
  end.

(** [candidate or None] *)
Definition str_or_none (candidate : str) : json :=
  if is_empty candidate then JNull else JStr candidate.

Definition clean_title (raw_title rom_url : json) : pyres json :=
  candidate <- str_strip (py_or raw_title (JStr [])) ;;
  let candidate :=
    if negb (is_empty candidate) then strip (ROM_EXT_RE_sub candidate)
    else candidate in
  candidate <-
    (if is_empty candidate && truthy rom_url then
       derived <- derive_title_from_url rom_url ;;
       Ok (strip (ROM_EXT_RE_sub (str_or_empty derived)))
     else Ok candidate) ;;
  Ok (str_or_none candidate).

(** The item [build_items] makes of a game with a title and a locator. *)
Definition make_item (system_type : json) (game : dict) (title rom_url : json)
  : dict :=
  let item : dict :=
    [(lit "title", title);
     (lit "type", system_type);
     (lit "props", JDict [(lit "rom", rom_url)])] in
  let thumbnail := extract_thumbnail game in
  let item := if truthy thumbnail then set item (lit "thumbnail") thumbnail
              else item in
  let background := extract_background game in
  let item := if truthy background then set item (lit "background") background
              else item in
  item.

(** One turn of the loop of [build_items]; [items] is the list built so far. *)
Definition build_items_body (system_type : json) (rom_prefix : option str)
    (raw_game : json) (items : list json) : pyres (list json) :=
  let game := normalize_game_entry raw_game in
  rom_url <- resolve_rom_url game rom_prefix ;;
  title <- clean_title (py_or (get game (lit "title")) (get game (lit "name")))
                       rom_url ;;
  if negb (truthy title) || negb (truthy rom_url) then Ok items   (* continue *)
  else Ok (items ++ [JDict (make_item system_type game title rom_url)]).

Definition build_items (games : json) (system_type : json)
    (rom_prefix : option str) : pyres (list json) :=
  entries <- py_iter games ;;
  for_each (build_items_body system_type rom_prefix) entries [].

(** *** Configuration *)

(** A [Path] is kept as the string it was made from. *)
Record Config : Type := {
  rgsx_base : str;
  systems_file : str;
  games_dir : str;
  mapping_path : str;
  output_path : str;
  feed_title : str;
  feed_description : str;
  category_prefix : str;
  rom_prefix_url : option str;
  neogeo_bios_url : option str;
  psx_bios_urls : option (list str)
}.

Definition DEFAULT_RGSX_PATH : str := lit "/mnt/rgsx/saves/ports/RGSX".
Definition DEFAULT_OUTPUT_PATH : str := lit "/var/www/html/content/feeds/rgsx_feed.json".

Definition DEFAULT_NEOGEO_BIOS_URL : str :=
  lit "https://archive.org/download/neogeoaesmvscomplete/BIOS/neogeo.zip".

Definition DEFAULT_PSX_BIOS_URLS : str :=
  lit "https://psx.arthus.net/roms/bios/scph5500.bin,https://psx.arthus.net/roms/bios/scph5501.bin,https://psx.arthus.net/roms/bios/scph5502.bin".

(** [os.environ.get(key, default)] *)
Definition environ_get (environ : str -> option str) (key default : str) : str :=
  match environ key with
  | Some v => v
  | None => default
  end.

(** [build_config()]; [environ] is [os.environ] and [utcnow] the text of
    [datetime.utcnow().isoformat()]. *)
Definition build_config (environ : str -> option str) (utcnow : str) : Config :=
  let rgsx_base := environ_get environ (lit "RGSX_DATA_PATH") DEFAULT_RGSX_PATH in
  let systems_file :=
    environ_get environ (lit "RGSX_SYSTEMS_FILE")
                (joinpath rgsx_base (lit "systems_list.json")) in
  let games_dir := joinpath rgsx_base (lit "games") in
  let mapping_path :=
    environ_get environ (lit "SYSTEM_MAPPING_PATH") (lit "/opt/rgsx/system_mapping.json") in
  let output_path := environ_get environ (lit "FEED_OUTPUT_PATH") DEFAULT_OUTPUT_PATH in
  let feed_title := environ_get environ (lit "FEED_TITLE") (lit "RGSX Library") in
  let feed_description :=
    environ_get environ (lit "FEED_DESCRIPTION")
                (lit "Generated from RGSX caches on " ++ utcnow ++ lit "Z") in
  let category_prefix := environ_get environ (lit "FEED_CATEGORY_PREFIX") [] in
  let rom_prefix_url := environ (lit "ROM_PREFIX_URL") in
  let neogeo_bios_url :=
    environ_get environ (lit "NEOGEO_BIOS_URL") DEFAULT_NEOGEO_BIOS_URL in
  (* PlayStation BIOS files (can be comma-separated list) *)
  let psx_bios_env := environ_get environ (lit "PSX_BIOS_URLS") DEFAULT_PSX_BIOS_URLS in
  let psx_bios_urls :=
    if negb (is_empty psx_bios_env)
    then Some (filter (fun url => negb (is_empty url))
                      (map strip (split (chr ",") psx_bios_env)))
    else None in
  {| rgsx_base := rgsx_base;
     systems_file := systems_file;
     games_dir := games_dir;
     mapping_path := mapping_path;
     output_path := output_path;
     feed_title := feed_title;
     feed_description := feed_description;
     category_prefix := category_prefix;
     rom_prefix_url :=
       match rom_prefix_url with
       | Some p => if negb (is_empty p) then Some (rstrip_char (chr "/") p) else None
       | None => None
       end;
     neogeo_bios_url := Some neogeo_bios_url;
     psx_bios_urls := psx_bios_urls |}.

(** *** The world outside: the file system and the standard output *)

(** What reading a path as JSON comes to. *)
Inductive file : Type :=
| Loaded (v : json)   (* [json.load] returns [v] *)
| Unavailable         (* missing, unreadable or not JSON: [FileNotFoundError],
                         [OSError], [JSONDecodeError] *)
| Undecodable         (* not UTF-8: [UnicodeDecodeError] *)
| Refused (e : exn).  (* [open] or [json.load] raises [e], another exception:
                         [ValueError] for an integer beyond the digit limit of
                         [int], [RecursionError] for nesting beyond the
                         recursion limit *)

(** The outcome of every call that reaches outside the program: [None] for
    a call that returns, [Some e] for one that raises [e]. *)
Record World : Type := {
  files : str -> file;
  (** [print(json.dumps(doc, indent=2))]: [RecursionError] for a document
      nested beyond the recursion limit, [OSError] for a standard output that
      cannot be written *)
  printing : json -> option exn;
  (** [path.parent.mkdir(parents=True, exist_ok=True)]: [OSError] for a
      directory that cannot be made, [ValueError] for a NUL in its name *)
  mkdir : str -> option exn;
  (** [path.open("w", encoding="utf-8")]: [OSError] for a file that cannot
      be opened; a file that opens is emptied *)
  opening : str -> option exn;
  (** [json.dump(doc, handle, indent=2)] and the closing of the file:
      [OSError] for a text that cannot be written to the end,
      [RecursionError] for a document nested beyond the recursion limit *)
  writing : str -> json -> option exn
}.

(** A path that holds a NUL: [open] raises [ValueError] before it looks for
    the file. *)
Definition has_nul (path : str) : bool := existsb (N.eqb 0%N) path.

(** [isinstance(e, OSError)] *)
Definition is_OSError (e : exn) : bool :=
  match e with
  | OSError => true
  | _ => false
  end.

(** [load_json(path)]: the loaded value, or [None] after a logged failure.
    Only [FileNotFoundError], [JSONDecodeError] and [OSError] are caught: a
    [ValueError], a [UnicodeDecodeError] or a [RecursionError] escapes. *)
Definition load_json (w : World) (path : str) : pyres json :=
  if has_nul path then Raise ValueError
  else
    match files w path with
    | Loaded v => Ok v
    | Unavailable => Ok JNull
    | Undecodable => Raise UnicodeDecodeError
    | Refused e => if is_OSError e then Ok JNull else Raise e
    end.

(** [v is None] *)
Definition is_none (v : json) : bool :=
  match v with
  | JNull => true
  | _ => false
  end.

(** A feed document that left the program, complete: on standard output
    ([--dry-run]) or in the output file. *)
Inductive output : Type :=
| Printed (doc : json)
| Written (path : str) (doc : json).

(** What a run comes to: the status it returns or the exception that
    escapes it, the documents that left the program, and the files that it
    opened for writing, which emptied them, and did not write to the end. *)
Record run : Type := {
  returned : pyres Z;
  emitted : list output;
  spoiled : list str
}.

(** A run that ends with nothing emitted and no file touched. *)
Definition quiet (r : pyres Z) : run :=
  {| returned := r; emitted := []; spoiled := [] |}.

(** A step of a run: when it raises, the run ends there. *)
Definition run_bind {A : Type} (m : pyres A) (k : A -> run) : run :=
  match m with
  | Ok a => k a
  | Raise e => quiet (Raise e)
  end.

Notation "x <~ m ;; k" := (run_bind m (fun x => k))
  (at level 61, m at next level, right associativity).

(** [if u:] for an optional string, and for an optional list. *)
Definition configured_url (u : option str) : bool :=
  match u with
  | Some s => negb (is_empty s)
  | None => false
  end.

Definition configured_urls (us : option (list str)) : bool :=
  match us with
  | Some l => negb (is_empty l)
  | None => false
  end.

(** The feed-level properties for systems that require BIOS files. *)
Definition feed_props_of (config : Config) : dict :=
  let feed_props : dict := [] in
  let feed_props :=
    if configured_url (neogeo_bios_url config)
    then set feed_props (lit "neogeo_bios")
             (JStr (match neogeo_bios_url config with Some u => u | None => [] end))
    else feed_props in
  let feed_props :=
    if configured_urls (psx_bios_urls config)
    then set feed_props (lit "psx_bios")
             (JList (map JStr (match psx_bios_urls config with Some l => l | None => [] end)))
    else feed_props in
  feed_props.

(** One turn of the loop over the systems in [generate_feed];
    [categories] is [feed["categories"]] so far. *)
Definition generate_feed_body (w : World) (config : Config) (mapping : json)
    (system : json) (categories : list json) : pyres (list json) :=
  system_type <- map_system_name system mapping ;;
  if negb (truthy system_type) then Ok categories   (* continue *)
  else
    sys <- get_method system ;;
    let system_name :=
      py_or (py_or (get sys (lit "platform_name")) (get sys (lit "name")))
            (JStr (lit "Unknown")) in
    let games_file :=
      joinpath (games_dir config) (format_value system_name ++ lit ".json") in
    games <- load_json w games_file ;;
    if is_none games then Ok categories   (* continue *)
    else
      items <- build_items games system_type (rom_prefix_url config) ;;
      if is_empty items then Ok categories   (* continue *)
      else
        let category_title := category_prefix config ++ format_value system_name in
        Ok (categories
              ++ [JDict [(lit "title", JStr category_title); (lit "items", JList items)]]).

(** The end of [generate_feed], reached with a feed that has categories.
    The dry run prints the feed.  Otherwise the directory is made, outside
    the [try]; the file is opened and written inside it, where an [OSError],
    and nothing else, is caught and gives status 1.  A write that fails after
    the file was opened leaves it emptied or holding part of the text. *)
Definition emit_feed (w : World) (config : Config) (dry_run : bool) (feed : json)
  : run :=
  if dry_run then
    match printing w feed with
    | Some e => quiet (Raise e)
    | None => {| returned := Ok 0%Z; emitted := [Printed feed]; spoiled := [] |}
    end
  else
    let path := output_path config in
    match mkdir w path with
    | Some e => quiet (Raise e)
    | None =>
        match (if has_nul path then Some ValueError else opening w path) with
        | Some e => quiet (if is_OSError e then Ok 1%Z else Raise e)
        | None =>
            match writing w path feed with
            | Some e =>
                {| returned := if is_OSError e then Ok 1%Z else Raise e;
                   emitted := [];
                   spoiled := [path] |}
            | None =>
                {| returned := Ok 0%Z;
                   emitted := [Written path feed];
                   spoiled := [] |}
            end
        end
    end.

(** [generate_feed(config, dry_run=...)] as a run. *)
Definition generate_feed_run (w : World) (config : Config) (dry_run : bool)
  : run :=
  systems <~ load_json w (systems_file config) ;;
  if is_none systems then quiet (Ok 1%Z)
  else
    mapping <~ load_json w (mapping_path config) ;;
    if is_none mapping then quiet (Ok 1%Z)
    else
      let feed : dict :=
        [(lit "title", JStr (feed_title config));
         (lit "longTitle", JStr (feed_title config));
         (lit "description", JStr (feed_description config));
         (lit "categories", JList [])] in
      (* Add feed-level properties for systems that require BIOS files *)
      let feed_props := feed_props_of config in
      let feed :=
        if negb (is_empty feed_props) then set feed (lit "props") (JDict feed_props)
        else feed in
      systems_list <~ py_iter systems ;;
      categories <~ for_each (generate_feed_body w config mapping) systems_list [] ;;
      (* the list under "categories" is the one the loop appended to *)
      let feed := set feed (lit "categories") (JList categories) in
      if negb (truthy (get feed (lit "categories"))) then quiet (Ok 1%Z)
      else emit_feed w config dry_run (JDict feed).

(** The status a run returned, with the documents it emitted. *)
Definition results (r : run) : pyres (Z * list output) :=
  rc <- returned r ;; Ok (rc, emitted r).

(** [generate_feed(config, dry_run=...)]: the returned status and the
    documents that were emitted. *)
Definition generate_feed (w : World) (config : Config) (dry_run : bool)
  : pyres (Z * list output) :=
  results (generate_feed_run w config dry_run).

End BuildFeed.

(* ------------------------------------------------------------------ *)
(** ** Vocabulary of the properties *)

(** [v[k]] when [v] is a [dict] that has the key. *)
Definition field (v : json) (k : str) : json :=
  match v with
  | JDict d => get d k
  | _ => JNull
  end.

Definition has_field (v : json) (k : str) : bool :=
  match v with
  | JDict d => has_key d k
  | _ => false
  end.

(** A string, or absent: what the data model stores under a text key. *)
Definition is_text (v : json) : bool :=
  match v with
  | JStr _ | JNull => true
  | _ => false
  end.

Definition text_fields (keys : list str) (d : dict) : bool :=
  forallb (fun k => is_text (get d k)) keys.

Definition system_keys : list str :=
  [lit "name"; lit "platform_name"; lit "folder"].

Definition game_keys : list str :=
  [lit "title"; lit "name"; lit "url"; lit "rom"; lit "href"; lit "path";
   lit "rom_path"].

Definition locator_keys : list str := [lit "url"; lit "rom"; lit "href"].
Definition path_keys : list str := [lit "path"; lit "rom_path"].
Definition thumbnail_keys : list str := [lit "img"; lit "thumbnail"; lit "image"].
Definition background_keys : list str :=
  [lit "background"; lit "banner"; lit "screenshot"].

(** A system record of the data model: [name], [platform_name] and
    [folder], where present, are strings. *)
Definition system_record (system : dict) : bool := text_fields system_keys system.

(** A raw game entry of the data model, of any of the three shapes (or of
    none): once normalized, its title and locator keys hold strings. *)
Definition game_entry (entry : json) : bool :=
  text_fields game_keys (normalize_game_entry entry).

(** The first of the fields [keys] that is present and not empty ([None]
    when there is none). *)
Fixpoint first_truthy (d : dict) (keys : list str) : json :=
  match keys with
  | [] => JNull
  | k :: keys' => if truthy (get d k) then get d k else first_truthy d keys'
  end.

(** The first of the fields [keys] that is present, whatever it holds. *)
Fixpoint first_present (d : dict) (keys : list str) : option json :=
  match keys with
  | [] => None
  | k :: keys' => if has_key d k then Some (get d k) else first_present d keys'
  end.

(** [v] is a string that is not empty. *)
Definition nonempty_str (v : json) : bool :=
  match v with
  | JStr (_ :: _) => true
  | _ => false
  end.

(** The locator and the cleaned title [build_items] computes for an entry. *)
Definition entry_locator (rom_prefix : option str) (entry : json) : pyres json :=
  resolve_rom_url (normalize_game_entry entry) rom_prefix.

Definition entry_title (rom_prefix : option str) (entry : json) : pyres json :=
  let game := normalize_game_entry entry in
  rom_url <- entry_locator rom_prefix entry ;;
  clean_title (py_or (get game (lit "title")) (get game (lit "name"))) rom_url.

(** Both the cleaned title and the locator of the entry are present. *)
Definition survives (rom_prefix : option str) (entry : json) : bool :=
  match entry_title rom_prefix entry, entry_locator rom_prefix entry with
  | Ok title, Ok rom_url => truthy title && truthy rom_url
  | _, _ => false
  end.

(** The documents among the outputs, and the items of a document. *)
Definition doc_of (o : output) : json :=
  match o with
  | Printed doc => doc
  | Written _ doc => doc
  end.

Definition elements (v : json) : list json :=
  match v with
  | JList l => l
  | _ => []
  end.

Definition items_of_feed (doc : json) : list json :=
  flat_map (fun category => elements (field category (lit "items")))
           (elements (field doc (lit "categories"))).

(** The [type] of every item of the categories satisfies [Q]. *)
Definition typed_categories (Q : json -> Prop) (categories : list json) : Prop :=
  Forall (fun category =>
            Forall (fun item => Q (field item (lit "type")))
                   (elements (field category (lit "items"))))
         categories.

(** Every value of the mapping table is a string. *)
Definition mapping_table (mapping : json) : bool :=
  match mapping with
  | JDict d => forallb (fun kv => match snd kv with JStr _ => true | _ => false end) d
  | _ => false
  end.

(** No character of [s] is [c]. *)
Definition free_of (c : N) (s : str) : bool := forallb (fun x => negb (N.eqb x c)) s.

(** The characters a recognized extension can hold (no white space, no
    dot), and the characters the alternatives of [ROM_EXTS] are written in. *)
Definition ext_char (c : N) : bool := negb (is_space c) && negb (N.eqb c (chr ".")).

Definition pattern_char (p : N) : bool := between 97 122 p || between 48 57 p.

(** [item] is the feed item of [entry]: it carries the cleaned title of the
    entry, which is not empty, the platform type, and the locator of the
    entry under [props.rom]. *)
Definition item_of_entry (system_type : json) (rom_prefix : option str)
    (entry item : json) : Prop :=
  exists title rom_url,
    entry_title rom_prefix entry = Ok title /\ nonempty_str title = true
    /\ entry_locator rom_prefix entry = Ok rom_url /\ truthy rom_url = true
    /\ field item (lit "title") = title
    /\ field item (lit "type") = system_type
    /\ has_field (field item (lit "props")) (lit "rom") = true
    /\ field (field item (lit "props")) (lit "rom") = rom_url.

(** Case analysis on the tests and matches of the goal. *)
Ltac break_goal :=
  repeat match goal with
         | |- context [if ?b then _ else _] => destruct b
         | |- context [match ?x with _ => _ end] => destruct x
         end.

(** *** Sample data

    The entry of the unit test, a bare title and a record with a relative
    path only. *)
Definition sample_entries : list json :=
  [JList [JStr (lit "Mega Example (USA).zip");
          JStr (lit "https://example.com/roms/Mega%20Example%20%28USA%29.zip");
          JStr (lit "512K")];
   JStr (lit "Untitled");
   JDict [(lit "name", JStr (lit "Relative")); (lit "path", JStr (lit "/roms/r.zip"))]].

(** Scenario A of the spec, read from the default locations. *)
Definition sample_systems : json :=
  JList [JDict [(lit "name", JStr (lit "Sega Genesis"));
                (lit "platform_name", JStr (lit "Mega Drive"))]].

Definition sample_mapping : json :=
  JDict [(lit "Sega Genesis", JStr (lit "genesis"))].

Definition sample_games : json :=
  JList [JList [JStr (lit "Sonic (USA).zip"); JStr (lit "https://x/sonic.zip");
                JStr (lit "4M")]].

Definition sample_world : World :=
  {| files := fun path =>
       if str_eqb path (lit "/mnt/rgsx/saves/ports/RGSX/systems_list.json")
       then Loaded sample_systems
       else if str_eqb path (lit "/opt/rgsx/system_mapping.json")
       then Loaded sample_mapping
       else if str_eqb path (lit "/mnt/rgsx/saves/ports/RGSX/games/Mega Drive.json")
       then Loaded sample_games
       else Unavailable;
     printing := fun _ => None;
     mkdir := fun _ => None;
     opening := fun _ => None;
     writing := fun _ _ => None |}.

(** The same cache with a mapping table that knows no system of the list. *)
Definition unmapped_world : World :=
  {| files := fun path =>
       if str_eqb path (lit "/mnt/rgsx/saves/ports/RGSX/systems_list.json")
       then Loaded sample_systems
       else if str_eqb path (lit "/opt/rgsx/system_mapping.json")
       then Loaded (JDict [(lit "Dreamcast", JStr (lit "dreamcast"))])
       else if str_eqb path (lit "/mnt/rgsx/saves/ports/RGSX/games/Mega Drive.json")
       then Loaded sample_games
       else Unavailable;
     printing := fun _ => None;
     mkdir := fun _ => None;
     opening := fun _ => None;
     writing := fun _ _ => None |}.

(** An environment with no variable set, and one that sets [PSX_BIOS_URLS]. *)
Definition no_environ : str -> option str := fun _ => None.

Definition psx_environ : str -> option str :=
  fun key =>
    if str_eqb key (lit "PSX_BIOS_URLS")
    then Some (lit "https://b/one.bin, https://b/two.bin ,https://b/three.bin")
    else None.

Definition sample_utcnow : str := lit "2024-01-01T00:00:00".

(** A system whose name differs from two keys of the table by case only,
    the exact key holding an empty value. *)
Definition system_A : dict := [(lit "name", JStr (lit "A"))].

Definition mapping_empty_A : dict :=
  [(lit "a", JStr (lit "x")); (lit "A", JStr [])].

(** A system whose folder is the empty string, and a table that has the
    empty string as a key. *)
Definition system_empty_folder : dict :=
  [(lit "name", JStr (lit "Foo")); (lit "folder", JStr [])].

Definition mapping_empty_key : dict := [([], JStr (lit "x"))].

(** A game whose [img] is present and empty while [thumbnail] is set. *)
Definition game_empty_img : json :=
  JDict [(lit "title", JStr (lit "Tetris"));
         (lit "url", JStr (lit "https://x/tetris.gb"));
         (lit "img", JStr []);
         (lit "thumbnail", JStr (lit "t.png"))].

Section LookupOrder.
Context {env : PyEnv}.

(** The name [map_system_name] looks up: [name], else [platform_name]. *)
Definition usable_name (system : dict) : json :=
  first_truthy system [lit "name"; lit "platform_name"].

(** Following the spec's words (4.1), the case-insensitive scan: the value
    of the first key of the table, in table order, that is the name up to
    case. *)
Definition case_insensitive_scan (name : str) (mapping : dict) : json :=
  match find (fun kv => str_eqb (lower (fst kv)) (lower name)) mapping with
  | Some kv => snd kv
  | None => JNull
  end.

(** Following the spec's words (4.1): the lookup order, first hit wins, a
    hit being a key of the table. *)
Definition spec_lookup_order (system mapping : dict) : json :=
  match usable_name system with
  | JStr name =>
      if has_key mapping name then get mapping name
      else
        match get system (lit "folder") with
        | JStr folder =>
            if has_key mapping folder then get mapping folder
            else if has_key mapping (lower folder) then get mapping (lower folder)
            else case_insensitive_scan name mapping
        | _ => case_insensitive_scan name mapping
        end
  | _ => JNull
  end.

(** The rules after the exact match of the name: the folder, then the scan.
    An entry counts for the folder rule when its value is not empty. *)
Definition folder_then_scan (system mapping : dict) (name : str) : json :=
  match get system (lit "folder") with
  | JStr (c :: folder') =>
      let folder := c :: folder' in
      if truthy (get mapping folder) then get mapping folder
      else if truthy (get mapping (lower folder)) then get mapping (lower folder)
      else scan_items (lower name) mapping
  | _ => scan_items (lower name) mapping
  end.

(** The lookup order of the code: as [spec_lookup_order], but an entry
    counts for the name rule and the folder rule only when its value is not
    empty. *)
Definition lookup_order (system mapping : dict) : json :=
  match usable_name system with
  | JStr name =>
      if truthy (get mapping name) then get mapping name
      else folder_then_scan system mapping name
  | _ => JNull
  end.

End LookupOrder.

(* ------------------------------------------------------------------ *)
(** ** Vocabulary of the further properties *)

(** [isinstance(v, str)] and [isinstance(v, dict)] *)
Definition is_str (v : json) : bool :=
  match v with
  | JStr _ => true
  | _ => false
  end.

Definition is_dict (v : json) : bool :=
  match v with
  | JDict _ => true
  | _ => false
  end.

(** An entry that can name a title at most: a bare string, a sequence of
    one string, the empty sequence, or a value of no shape at all. *)
Definition title_only (entry : json) : bool :=
  match entry with
  | JDict _ => false
  | JList [] => true
  | JList [JStr _] => true
  | JList _ => false
  | _ => true
  end.

(** The keys an item can carry. *)
Definition item_keys : list str :=
  [lit "title"; lit "type"; lit "props"; lit "thumbnail"; lit "background"].

(** [a] is [b] with some elements left out, the order kept. *)
Inductive subseq {A : Type} : list A -> list A -> Prop :=
| subseq_nil : subseq [] []
| subseq_skip (x : A) (a b : list A) : subseq a b -> subseq a (x :: b)
| subseq_keep (x : A) (a b : list A) : subseq a b -> subseq (x :: a) (x :: b).

(** What [clean_title] can give as a title: a string that is not empty and
    has no white space at either end. *)
Definition cleaned_title (title : str) : Prop :=
  title <> [] /\ strip title = title.

(** The shape of a feed item: [title], [type] and [props] in this order,
    [props] holding the locator only, then the artwork that is present. *)
Definition item_shape (system_type : json) (item : json) : Prop :=
  exists title rom_url artwork,
    item = JDict ((lit "title", JStr title)
                  :: (lit "type", system_type)
                  :: (lit "props", JDict [(lit "rom", rom_url)])
                  :: artwork)
    /\ cleaned_title title
    /\ truthy rom_url = true
    /\ subseq (map fst artwork) [lit "thumbnail"; lit "background"]
    /\ Forall (fun kv => truthy (snd kv) = true) artwork.

(** [s] does not end in [c], and does not start with it. *)
Definition no_trailing (c : N) (s : str) : Prop := forall a, s <> a ++ [c].
Definition no_leading (c : N) (s : str) : Prop := forall b, s <> c :: b.

Section FeedShape.
Context {env : PyEnv}.

(** The display name [generate_feed] gives a system: [platform_name], else
    [name], else the literal ["Unknown"]. *)
Definition display_name (sys : dict) : json :=
  py_or (py_or (get sys (lit "platform_name")) (get sys (lit "name")))
        (JStr (lit "Unknown")).

(** [category] is the category [generate_feed] makes of [system]: the
    system is mapped to a type that is not empty, its games file loads, the
    items built from it are not none, and the title is the prefix followed by
    the display name. *)
Definition category_of (w : World) (config : Config) (mapping : json)
    (system category : json) : Prop :=
  exists sys system_type games items,
    system = JDict sys
    /\ map_system_name system mapping = Ok system_type
    /\ truthy system_type = true
    /\ load_json w (joinpath (games_dir config)
                             (format_value (display_name sys) ++ lit ".json"))
       = Ok games
    /\ build_items games system_type (rom_prefix_url config) = Ok items
    /\ items <> []
    /\ category
       = JDict [(lit "title",
                 JStr (category_prefix config ++ format_value (display_name sys)));
                (lit "items", JList items)].

(** The games file [generate_feed] reads for a system. *)
Definition games_file_of (config : Config) (sys : dict) : str :=
  joinpath (games_dir config) (format_value (display_name sys) ++ lit ".json").

(** A key of the mapping table that answers for a system: it is the name or
    lower-cases to the lower-cased name, or it is the folder or the
    lower-cased folder. *)
Definition key_matches (sys : dict) (k : str) : Prop :=
  (exists name,
     first_truthy sys [lit "name"; lit "platform_name"] = JStr name
     /\ (k = name \/ lower k = lower name))
  \/ (exists folder,
        get sys (lit "folder") = JStr folder /\ (k = folder \/ k = lower folder)).

(** The document of a feed with these categories, entry by entry: title
    and long title, description, categories, then the properties when there
    is one, the Neo Geo BIOS before the PlayStation ones. *)
Definition feed_document (config : Config) (categories : list json) : json :=
  let props : dict :=
    (match neogeo_bios_url config with
     | Some (c :: u) => [(lit "neogeo_bios", JStr (c :: u))]
     | _ => []
     end)
    ++ (match psx_bios_urls config with
        | Some (u :: urls) => [(lit "psx_bios", JList (map JStr (u :: urls)))]
        | _ => []
        end) in
  JDict ([(lit "title", JStr (feed_title config));
          (lit "longTitle", JStr (feed_title config));
          (lit "description", JStr (feed_description config));
          (lit "categories", JList categories)]
         ++ (match props with
             | [] => []
             | _ => [(lit "props", JDict props)]
             end)).

(** What the run that writes comes to once the feed [doc] is assembled:
    the directory is made or the exception of [mkdir] escapes; a path with a
    NUL raises [ValueError]; a file that cannot be opened gives status 1 and
    is left as it was; a write that fails gives status 1 and leaves the file
    emptied or partial; an exception that is no [OSError] escapes; otherwise
    [doc] is in the file and the status is 0. *)
Definition written_run (w : World) (config : Config) (doc : json) : run :=
  let path := output_path config in
  match mkdir w path with
  | Some e => quiet (Raise e)
  | None =>
      if has_nul path then quiet (Raise ValueError)
      else
        match opening w path, writing w path doc with
        | Some OSError, _ => quiet (Ok 1%Z)
        | Some e, _ => quiet (Raise e)
        | None, Some OSError =>
            {| returned := Ok 1%Z; emitted := []; spoiled := [path] |}
        | None, Some e =>
            {| returned := Raise e; emitted := []; spoiled := [path] |}
        | None, None =>
            {| returned := Ok 0%Z; emitted := [Written path doc]; spoiled := [] |}
        end
  end.

(** [e] is an exception of the last step of [generate_feed], raised by a
    call that reaches outside: the printing of the feed, or the making of the
    directory, the opening and the writing of the output file. *)
Definition raised_emitting (w : World) (config : Config) (dry_run : bool)
    (e : exn) : Prop :=
  if dry_run then exists doc, printing w doc = Some e
  else
    mkdir w (output_path config) = Some e
    \/ (has_nul (output_path config) = true /\ e = ValueError)
    \/ opening w (output_path config) = Some e
    \/ exists doc, writing w (output_path config) doc = Some e.

(** Input of the data model: a system is a record with text fields, a games
    file holds a list of game entries or [null]. *)
Definition well_formed_system (system : json) : bool :=
  match system with
  | JDict sys => system_record sys
  | _ => false
  end.

Definition well_formed_games (games : json) : bool :=
  match games with
  | JList entries => forallb game_entry entries
  | JNull => true
  | _ => false
  end.

End FeedShape.

(** *** More sample data *)

Definition slash_environ : str -> option str :=
  fun key =>
    if str_eqb key (lit "ROM_PREFIX_URL") then Some (lit "https://cdn/roms//")
    else None.

Definition game_with_path : dict := [(lit "path", JStr (lit "//snes/a.sfc"))].

(** The category of scenario A. *)
Definition sample_category : json :=
  JDict [(lit "title", JStr (lit "Mega Drive"));
         (lit "items",
          JList [JDict [(lit "title", JStr (lit "Sonic (USA)"));
                        (lit "type", JStr (lit "genesis"));
                        (lit "props",
                         JDict [(lit "rom", JStr (lit "https://x/sonic.zip"))])]])].

(** The cache of scenario A with a systems file that holds an object, and
    with a games file that is not UTF-8. *)
Definition object_world : World :=
  {| files := fun path =>
       if str_eqb path (lit "/mnt/rgsx/saves/ports/RGSX/systems_list.json")
       then Loaded (JDict [(lit "systems", sample_systems)])
       else files sample_world path;
     printing := printing sample_world;
     mkdir := mkdir sample_world;
     opening := opening sample_world;
     writing := writing sample_world |}.

(** The cache of scenario A on a disk that is full: the output file opens
    and cannot be written. *)
Definition full_disk_world : World :=
  {| files := files sample_world;
     printing := printing sample_world;
     mkdir := mkdir sample_world;
     opening := opening sample_world;
     writing := fun _ _ => Some OSError |}.

Definition undecodable_world : World :=
  {| files := fun path =>
       if str_eqb path (lit "/mnt/rgsx/saves/ports/RGSX/games/Mega Drive.json")
       then Undecodable
       else files sample_world path;
     printing := printing sample_world;
     mkdir := mkdir sample_world;
     opening := opening sample_world;
     writing := writing sample_world |}.

(* ------------------------------------------------------------------ *)
(** ** Basic facts *)

Lemma str_eqb_refl : forall s, str_eqb s s = true.
Proof.
  induction s as [|c s IH]; simpl; [reflexivity|].
  now rewrite N.eqb_refl, IH.
Qed.

Lemma str_eqb_eq : forall a b, str_eqb a b = true <-> a = b.
Proof.
  induction a as [|x a IH]; destruct b as [|y b]; simpl; split; intro E;
    try reflexivity; try discriminate.
  - apply andb_true_iff in E as [E1 E2].
    apply N.eqb_eq in E1. apply IH in E2. now subst.
  - inversion E; subst. now rewrite N.eqb_refl, str_eqb_refl.
Qed.

Lemma is_text_py_or : forall a b,
  is_text a = true -> is_text b = true -> is_text (py_or a b) = true.
Proof.
  intros a b Ha Hb. unfold py_or. now destruct (truthy a).
Qed.

Lemma text_truthy : forall v,
  is_text v = true -> truthy v = true -> exists c s, v = JStr (c :: s).
Proof.
  intros [ | | | | [|c s] | | ] Ht Hv; try discriminate. now exists c, s.
Qed.

Lemma py_or_first_truthy2 : forall d k1 k2,
  truthy (py_or (get d k1) (get d k2)) = truthy (first_truthy d [k1; k2])
  /\ (truthy (first_truthy d [k1; k2]) = true ->
      py_or (get d k1) (get d k2) = first_truthy d [k1; k2]).
Proof.
  intros d k1 k2. unfold py_or. simpl.
  destruct (truthy (get d k1)) eqn:E1; rewrite ?E1; [split; auto|].
  destruct (truthy (get d k2)) eqn:E2; rewrite ?E2; split; auto; discriminate.
Qed.

Lemma py_or_first_truthy3 : forall d k1 k2 k3,
  truthy (py_or (py_or (get d k1) (get d k2)) (get d k3))
  = truthy (first_truthy d [k1; k2; k3])
  /\ (truthy (first_truthy d [k1; k2; k3]) = true ->
      py_or (py_or (get d k1) (get d k2)) (get d k3) = first_truthy d [k1; k2; k3]).
Proof.
  intros d k1 k2 k3. unfold py_or. simpl.
  destruct (truthy (get d k1)) eqn:E1; rewrite ?E1; [split; auto|].
  destruct (truthy (get d k2)) eqn:E2; rewrite ?E2; [split; auto|].
  destruct (truthy (get d k3)) eqn:E3; rewrite ?E3; split; auto; discriminate.
Qed.

(* ------------------------------------------------------------------ *)
(** ** The normalizer *)

(** C8.  [normalize_game_entry] returns a structured record for every input
    value and cannot raise: a record passes through unchanged; a sequence
    gives [title] from position 0 (if there is one), [url] from position 1
    and [size] from position 2, later positions being ignored; a bare string
    gives a title-only record; any other value gives the empty record.
    Normalizing the result again changes nothing. *)
Theorem normalize_game_entry_total :
  (forall d, normalize_game_entry (JDict d) = d)
  /\ (forall l,
        normalize_game_entry (JList l) =
        match l with
        | [] => []
        | [t] => [(lit "title", t)]
        | [t; u] => [(lit "title", t); (lit "url", u)]
        | t :: u :: s :: _ => [(lit "title", t); (lit "url", u); (lit "size", s)]
        end)
  /\ (forall s, normalize_game_entry (JStr s) = [(lit "title", JStr s)])
  /\ (forall v,
        match v with
        | JDict _ | JList _ | JStr _ => True
        | _ => normalize_game_entry v = []
        end)
  /\ (forall entry,
        normalize_game_entry (JDict (normalize_game_entry entry))
        = normalize_game_entry entry).
Proof.
  repeat split.
  - intros [|t [|u [|s l]]]; reflexivity.
  - intros []; exact I || reflexivity.
Qed.

(* ------------------------------------------------------------------ *)
(** ** The resource locator *)

(** C7.  For every normalized game record and optional [rom_prefix],
    [resolve_rom_url] returns the first of [url], [rom], [href] that is
    present and not empty; when there is none, a [rom_prefix] is configured
    and the first non-empty of [path], [rom_path] is the string [p], it
    returns [rom_prefix + "/" + p] with the leading slashes of [p] removed;
    when there is no explicit locator and either no [rom_prefix] is
    configured (path fields or not) or no path field is non-empty, the
    result is absent. *)
Theorem resolve_rom_url_cases : forall (game : dict) (rom_prefix : option str),
  let url := first_truthy game locator_keys in
  let candidate := first_truthy game path_keys in
  (truthy url = true -> resolve_rom_url game rom_prefix = Ok url)
  /\ (forall prefix p,
        truthy url = false -> rom_prefix = Some prefix -> prefix <> [] ->
        candidate = JStr p -> p <> [] ->
        resolve_rom_url game rom_prefix
        = Ok (JStr (prefix ++ lit "/" ++ lstrip_char (chr "/") p)))
  /\ (truthy url = false -> configured_url rom_prefix = false ->
      resolve_rom_url game rom_prefix = Ok JNull)
  /\ (truthy url = false -> truthy candidate = false ->
      resolve_rom_url game rom_prefix = Ok JNull).
Proof.
  intros game rom_prefix url candidate.
  destruct (py_or_first_truthy3 game (lit "url") (lit "rom") (lit "href"))
    as [Hu Hu'].
  destruct (py_or_first_truthy2 game (lit "path") (lit "rom_path"))
    as [Hc Hc'].
  fold locator_keys in Hu, Hu'. fold path_keys in Hc, Hc'.
  fold url in Hu, Hu'. fold candidate in Hc, Hc'.
  unfold resolve_rom_url.
  repeat split.
  - intro T. rewrite Hu, T. now rewrite Hu'.
  - intros prefix p F -> Hp Ec Hne. rewrite Hu, F.
    destruct prefix as [|c prefix]; [contradiction|]. simpl is_empty. simpl negb.
    assert (Tc : truthy candidate = true) by (rewrite Ec; now destruct p).
    rewrite Hc, Tc, (Hc' Tc), Ec. reflexivity.
  - intros F Hcfg. rewrite Hu, F.
    destruct rom_prefix as [[|c prefix]|]; simpl in *; try reflexivity; discriminate.
  - intros F Fc. rewrite Hu, F.
    destruct rom_prefix as [[|c prefix]|]; simpl; try reflexivity.
    now rewrite Hc, Fc.
Qed.

(* ------------------------------------------------------------------ *)
(** ** Titles derived from a locator *)

Lemma pieces_nonempty : forall s, s <> [] -> pieces s <> [].
Proof.
  intros [|c rest] H; [contradiction|]. cbn [pieces].
  break_goal; discriminate.
Qed.

Lemma utf8_replace_nonempty : forall ps, ps <> [] -> utf8_replace ps <> [].
Proof.
  intros [|p rest] H; [contradiction|]. cbn [utf8_replace].
  break_goal; discriminate.
Qed.

Lemma unquote_nonempty : forall s, s <> [] -> unquote s <> [].
Proof.
  intros s H. unfold unquote. now apply utf8_replace_nonempty, pieces_nonempty.
Qed.

Lemma rfind_from_lower : forall c p i found,
  (-1 <= found)%Z -> (0 <= i)%Z -> (-1 <= rfind_from c p i found)%Z.
Proof.
  induction p as [|x p IH]; intros i found Hf Hi; simpl; [exact Hf|].
  apply IH; [destruct (N.eqb x c)|]; lia.
Qed.

Lemma rfind_from_app : forall c a b i found,
  rfind_from c (a ++ b) i found
  = rfind_from c b (i + Z.of_nat (List.length a))%Z (rfind_from c a i found).
Proof.
  induction a as [|x a IH]; intros b i found; simpl List.length.
  - simpl. now rewrite Z.add_0_r.
  - simpl app. simpl rfind_from. rewrite IH. f_equal. lia.
Qed.

Lemma rfind_from_free : forall c p i found,
  free_of c p = true -> rfind_from c p i found = found.
Proof.
  induction p as [|x p IH]; intros i found H; simpl in *; [reflexivity|].
  apply andb_true_iff in H as [Hx Hp]. apply negb_true_iff in Hx.
  rewrite Hx. now apply IH.
Qed.

Lemma free_of_app : forall c a b,
  free_of c (a ++ b) = free_of c a && free_of c b.
Proof. intros. unfold free_of. apply forallb_app. Qed.

(** A name [root.ext] whose root holds more than dots: the split is at the
    last dot. *)
Lemma splitext_root_ext : forall root ext,
  free_of (chr "/") (root ++ ext) = true ->
  free_of (chr ".") ext = true ->
  existsb (fun c => negb (N.eqb c (chr "."))) root = true ->
  splitext (root ++ lit "." ++ ext) = (root, lit "." ++ ext).
Proof.
  intros root ext Hsep Hdot Hroot.
  rewrite free_of_app in Hsep. apply andb_true_iff in Hsep as [Hs1 Hs2].
  unfold splitext.
  assert (Es : rfind (chr "/") (root ++ lit "." ++ ext) = (-1)%Z).
  { unfold rfind. apply rfind_from_free.
    rewrite free_of_app, Hs1. simpl. exact Hs2. }
  assert (Ed : rfind (chr ".") (root ++ lit "." ++ ext)
               = Z.of_nat (List.length root)).
  { unfold rfind. rewrite rfind_from_app. simpl.
    now rewrite rfind_from_free. }
  rewrite Es, Ed.
  assert (Hlt : (-1 <? Z.of_nat (List.length root))%Z = true)
    by (apply Z.ltb_lt; lia).
  rewrite Hlt. unfold slice.
  replace (-1 + 1)%Z with 0%Z by lia. rewrite Z.sub_0_r, Nat2Z.id.
  change (Z.to_nat 0) with 0%nat. rewrite skipn_O.
  assert (Ef : firstn (List.length root) (root ++ lit "." ++ ext) = root).
  { rewrite firstn_app, Nat.sub_diag, firstn_all. simpl. apply app_nil_r. }
  assert (Ek : skipn (List.length root) (root ++ lit "." ++ ext) = lit "." ++ ext).
  { rewrite skipn_app, Nat.sub_diag, skipn_all. reflexivity. }
  rewrite Ef, Ek, Hroot. reflexivity.
Qed.

Lemma splitext_root_nonempty : forall p, p <> [] -> fst (splitext p) <> [].
Proof.
  intros p Hp. unfold splitext.
  destruct (rfind (chr "/") p <? rfind (chr ".") p)%Z eqn:Hlt; [|exact Hp].
  destruct (existsb _ _) eqn:Hex; [|exact Hp].
  cbn [fst]. apply Z.ltb_lt in Hlt.
  assert (Hsep : (-1 <= rfind (chr "/") p)%Z)
    by (apply rfind_from_lower; lia).
  unfold slice in Hex.
  destruct (Z.to_nat (rfind (chr ".") p - (rfind (chr "/") p + 1))) eqn:Hn.
  - simpl in Hex. discriminate.
  - destruct (Z.to_nat (rfind (chr ".") p)) eqn:Hd; [lia|].
    destruct p; [contradiction | discriminate].
Qed.

Lemma derive_title_of_str : forall c u,
  derive_title_from_url (JStr (c :: u))
  = Ok (JStr (let segment := unquote (last_part (split (chr "/") (c :: u))) in
              if is_empty (fst (splitext segment)) then segment
              else fst (splitext segment))).
Proof.
  intros c u. unfold derive_title_from_url. simpl truthy. simpl negb.
  cbv iota. cbv zeta. unfold py_or. simpl truthy.
  now destruct (fst (splitext _)).
Qed.

(** C4 (amended).  For every URL string, [derive_title_from_url] takes the
    text after the last [/], percent-decodes it and strips its file
    extension, falling back to the decoded segment should the stripped text
    be empty; a decoded segment [root.ext] gives [root]; a segment that is
    not empty gives a title that is not empty.  When the URL ends in [/]
    the segment is empty and the result is the empty string, not an absent
    value: only the empty URL gives an absent result.  The input
    ["https://x/y/Mega%20Example%20%28USA%29.zip"] yields
    ["Mega Example (USA)"]. *)
Theorem derive_title_from_url_spec :
  (forall u, u <> [] ->
     let segment := unquote (last_part (split (chr "/") u)) in
     let root := fst (splitext segment) in
     derive_title_from_url (JStr u)
     = Ok (JStr (if is_empty root then segment else root)))
  /\ (forall u root ext,
        unquote (last_part (split (chr "/") u)) = root ++ lit "." ++ ext ->
        free_of (chr "/") (root ++ ext) = true ->
        free_of (chr ".") ext = true ->
        existsb (fun c => negb (N.eqb c (chr "."))) root = true ->
        derive_title_from_url (JStr u) = Ok (JStr root))
  /\ (forall u,
        last_part (split (chr "/") u) <> [] ->
        exists title,
          derive_title_from_url (JStr u) = Ok (JStr title) /\ title <> [])
  /\ (forall u,
        u <> [] -> last_part (split (chr "/") u) = [] ->
        derive_title_from_url (JStr u) = Ok (JStr []))
  /\ derive_title_from_url (JStr []) = Ok JNull
  /\ derive_title_from_url (JStr (lit "https://x/y/Mega%20Example%20%28USA%29.zip"))
     = Ok (JStr (lit "Mega Example (USA)")).
Proof.
  split; [|split; [|split; [|split; [|split]]]].
  - intros [|c u] Hu; [contradiction|]. apply derive_title_of_str.
  - intros u root ext Hseg Hsep Hdot Hroot.
    assert (Hne : u <> []).
    { intros ->. destruct root; discriminate. }
    destruct u as [|c u]; [contradiction|].
    rewrite derive_title_of_str. cbv zeta.
    rewrite Hseg, splitext_root_ext by assumption. cbn [fst].
    destruct root; [discriminate | reflexivity].
  - intros [|c u] Hseg; [now contradiction Hseg|].
    rewrite derive_title_of_str. cbv zeta.
    pose proof (splitext_root_nonempty (unquote_nonempty Hseg)) as Hroot.
    destruct (fst (splitext _)) as [|x root] eqn:E; [contradiction|].
    exists (x :: root). split; [reflexivity | discriminate].
  - intros [|c u] Hu Hseg; [contradiction|].
    rewrite derive_title_of_str. cbv zeta. rewrite Hseg. reflexivity.
  - reflexivity.
  - vm_compute. reflexivity.
Qed.

(* ------------------------------------------------------------------ *)
(** ** Trimming and the extension pattern *)

Lemma lstrip_by_head : forall f s c r, lstrip_by f s = c :: r -> f c = false.
Proof.
  induction s as [|x s IH]; intros c r H; simpl in H; [discriminate|].
  destruct (f x) eqn:E; [now apply IH in H|]. now inversion H; subst.
Qed.

Lemma lstrip_by_idem : forall f s, lstrip_by f (lstrip_by f s) = lstrip_by f s.
Proof.
  intros f s. destruct (lstrip_by f s) as [|c r] eqn:E; [reflexivity|].
  simpl. now rewrite (lstrip_by_head _ _ E).
Qed.


Lemma lstrip_by_keep : forall f c s, f c = false -> lstrip_by f (c :: s) = c :: s.
Proof. intros f c s H. simpl. now rewrite H. Qed.

Lemma rstrip_by_last : forall f s a c, rstrip_by f s = a ++ [c] -> f c = false.
Proof.
  intros f s a c H. unfold rstrip_by in H.
  apply (f_equal (@rev N)) in H. rewrite rev_involutive, rev_app_distr in H.
  simpl in H. now apply lstrip_by_head in H.
Qed.






Lemma ext_char_range : forall c, (48 <= c <= 122)%N -> ext_char c = true.
Proof.
  intros c H. unfold ext_char, is_space, whitespace, chr. simpl existsb.
  change (N_of_ascii ".") with 46%N.
  repeat match goal with
         | |- context [N.eqb c ?k] =>
             replace (N.eqb c k) with false by (symmetry; apply N.eqb_neq; lia)
         end.
  reflexivity.
Qed.

Lemma ichar_ext_char : forall p c,
  pattern_char p = true -> ichar p c = true -> ext_char c = true.
Proof.
  intros p c Hp H. unfold pattern_char, between in Hp. unfold ichar, between in H.
  repeat first [ rewrite orb_true_iff in Hp | rewrite andb_true_iff in Hp
               | rewrite N.leb_le in Hp ].
  repeat first [ rewrite orb_true_iff in H | rewrite andb_true_iff in H
               | rewrite N.leb_le in H | rewrite N.eqb_eq in H ].
  destruct H as [[[[H | H] | H] | H] | H].
  - subst c. apply ext_char_range. lia.
  - destruct H as [Hr ->]. apply ext_char_range. lia.
  - destruct H as [_ [-> | ->]]; reflexivity.
  - destruct H as [_ ->]. reflexivity.
  - destruct H as [_ ->]. reflexivity.
Qed.

Lemma imatch_ext_chars : forall pat e,
  forallb pattern_char pat = true -> imatch pat e = true ->
  forallb ext_char e = true /\ List.length e = List.length pat.
Proof.
  induction pat as [|p pat IH]; intros [|c e] Hp H; simpl in *;
    try discriminate; [now split|].
  apply andb_true_iff in Hp as [Hp1 Hp2]. apply andb_true_iff in H as [H1 H2].
  destruct (IH e Hp2 H2) as [He Hl].
  rewrite (ichar_ext_char _ _ Hp1 H1), He. now rewrite Hl.
Qed.



Lemma match_here_inv : forall s r,
  match_here s = Some r ->
  exists e, is_rom_ext e = true /\ s = lit "." ++ e ++ r /\ (r = [] \/ r = [10%N]).
Proof.
  intros [|c e] r H; simpl in H; [discriminate|].
  destruct (N.eqb c (chr ".")) eqn:Ec; [|discriminate].
  apply N.eqb_eq in Ec. subst c.
  destruct (is_rom_ext e) eqn:Ee.
  - inversion H; subst. exists e. rewrite app_nil_r. auto.
  - destruct (rev e) as [|nl e'] eqn:Er; [discriminate|].
    destruct (N.eqb nl 10 && is_rom_ext (rev e')) eqn:Et; [|discriminate].
    apply andb_true_iff in Et as [Hnl He']. apply N.eqb_eq in Hnl. subst nl.
    inversion H; subst. exists (rev e'). split; [exact He'|]. split; [|auto].
    apply (f_equal (@rev N)) in Er. rewrite rev_involutive in Er.
    now rewrite Er.
Qed.



Lemma ROM_EXT_RE_sub_cons : forall c s,
  ROM_EXT_RE_sub (c :: s)
  = match match_here (c :: s) with
    | Some rest => rest
    | None => c :: ROM_EXT_RE_sub s
    end.
Proof. reflexivity. Qed.




Lemma clean_title_str : forall raw rom_url,
  clean_title (JStr raw) rom_url
  = (let candidate := strip raw in
     let candidate :=
       if negb (is_empty candidate) then strip (ROM_EXT_RE_sub candidate)
       else candidate in
     candidate <-
       (if is_empty candidate && truthy rom_url then
          derived <- derive_title_from_url rom_url ;;
          Ok (strip (ROM_EXT_RE_sub (str_or_empty derived)))
        else Ok candidate) ;;
     Ok (str_or_none candidate)).
Proof. intros [|c raw] rom_url; reflexivity. Qed.




(* ------------------------------------------------------------------ *)
(** ** The item builder *)

Lemma text_field : forall keys d k,
  text_fields keys d = true -> In k keys -> is_text (get d k) = true.
Proof.
  intros keys d k H Hin. unfold text_fields in H.
  rewrite forallb_forall in H. now apply H.
Qed.


Lemma text_truthy_nonempty : forall v,
  is_text v = true -> truthy v = true -> nonempty_str v = true.
Proof. intros v Ht Hv. destruct (text_truthy v Ht Hv) as [c [s ->]]. reflexivity. Qed.

Lemma str_or_none_cases : forall s,
  str_or_none s = JNull \/ nonempty_str (str_or_none s) = true.
Proof. intros [|c s]; [left | right]; reflexivity. Qed.

(** With text fields the locator is computed without error, and is a
    string that is not empty, or absent. *)
Lemma resolve_rom_url_text : forall game rom_prefix,
  text_fields game_keys game = true ->
  exists v, resolve_rom_url game rom_prefix = Ok v
            /\ (v = JNull \/ nonempty_str v = true).
Proof.
  intros game rom_prefix Ht.
  assert (Hk : forall k, In k game_keys -> is_text (get game k) = true)
    by (intros k Hin; now apply (text_field game_keys)).
  unfold resolve_rom_url.
  set (url := py_or (py_or (get game (lit "url")) (get game (lit "rom")))
                    (get game (lit "href"))).
  assert (Hurl : is_text url = true).
  { unfold url. repeat apply is_text_py_or; apply Hk; unfold game_keys; simpl; auto 10. }
  destruct (truthy url) eqn:Tu.
  - exists url. split; [reflexivity|]. right. now apply text_truthy_nonempty.
  - destruct rom_prefix as [[|c prefix]|]; simpl; try (exists JNull; now auto).
    set (candidate := py_or (get game (lit "path")) (get game (lit "rom_path"))).
    assert (Hc : is_text candidate = true).
    { unfold candidate. apply is_text_py_or; apply Hk; unfold game_keys; simpl; auto 10. }
    destruct (truthy candidate) eqn:Tc; [|exists JNull; now auto].
    destruct (text_truthy candidate Hc Tc) as [x [p ->]]. simpl.
    eexists. split; [reflexivity|]. right. reflexivity.
Qed.

Lemma derive_title_text : forall v,
  is_text v = true -> exists d, derive_title_from_url v = Ok d.
Proof.
  intros [ | | | | [|c s] | | ] H; try discriminate;
    try (exists JNull; reflexivity).
  eexists. apply derive_title_of_str.
Qed.

Lemma clean_title_text : forall raw_title rom_url,
  is_text raw_title = true -> is_text rom_url = true ->
  exists v, clean_title raw_title rom_url = Ok v
            /\ (v = JNull \/ nonempty_str v = true).
Proof.
  intros raw_title rom_url Hr Hu.
  assert (E : exists raw, clean_title raw_title rom_url = clean_title (JStr raw) rom_url).
  { destruct raw_title; try discriminate; [exists [] | eexists]; reflexivity. }
  destruct E as [raw ->]. rewrite clean_title_str. cbv zeta.
  match goal with
  | |- context [if is_empty ?c && truthy rom_url then _ else _] =>
      destruct (is_empty c && truthy rom_url)
  end.
  - destruct (derive_title_text rom_url Hu) as [d ->]. simpl.
    eexists. split; [reflexivity | apply str_or_none_cases].
  - simpl. eexists. split; [reflexivity | apply str_or_none_cases].
Qed.

(** What a well-formed entry gives: a locator and a title, each a string
    that is not empty or absent, and no error. *)
Lemma entry_outcome : forall rom_prefix entry,
  game_entry entry = true ->
  exists title rom_url,
    entry_locator rom_prefix entry = Ok rom_url
    /\ (rom_url = JNull \/ nonempty_str rom_url = true)
    /\ entry_title rom_prefix entry = Ok title
    /\ (title = JNull \/ nonempty_str title = true)
    /\ survives rom_prefix entry = truthy title && truthy rom_url.
Proof.
  intros rom_prefix entry Ht. unfold game_entry in Ht.
  destruct (resolve_rom_url_text _ rom_prefix Ht) as [rom_url [Hrom Hrc]].
  assert (Hraw : is_text (py_or (get (normalize_game_entry entry) (lit "title"))
                                (get (normalize_game_entry entry) (lit "name"))) = true).
  { apply is_text_py_or; apply (text_field game_keys); try assumption;
      unfold game_keys; simpl; auto 10. }
  assert (Hu : is_text rom_url = true).
  { destruct Hrc as [-> | Hn]; [reflexivity|].
    destruct rom_url; try discriminate. reflexivity. }
  destruct (clean_title_text _ _ Hraw Hu) as [title [Htitle Htc]].
  exists title, rom_url. unfold survives, entry_title, entry_locator.
  rewrite Hrom. simpl. rewrite Htitle. auto.
Qed.

Lemma build_items_body_eq : forall system_type rom_prefix entry items title rom_url,
  entry_locator rom_prefix entry = Ok rom_url ->
  entry_title rom_prefix entry = Ok title ->
  build_items_body system_type rom_prefix entry items
  = Ok (if truthy title && truthy rom_url
        then items ++ [JDict (make_item system_type (normalize_game_entry entry)
                                        title rom_url)]
        else items).
Proof.
  intros system_type rom_prefix entry items title rom_url Hl Ht.
  unfold entry_title in Ht. rewrite Hl in Ht. simpl in Ht.
  unfold entry_locator in Hl. unfold build_items_body.
  rewrite Hl. simpl. rewrite Ht. simpl.
  destruct (truthy title), (truthy rom_url); reflexivity.
Qed.

Lemma make_item_fields : forall system_type game title rom_url,
  let item := JDict (make_item system_type game title rom_url) in
  field item (lit "title") = title
  /\ field item (lit "type") = system_type
  /\ has_field (field item (lit "props")) (lit "rom") = true
  /\ field (field item (lit "props")) (lit "rom") = rom_url.
Proof.
  intros system_type game title rom_url. unfold make_item. cbv zeta.
  destruct (truthy (extract_thumbnail game)),
           (truthy (extract_background game)); repeat split.
Qed.

Lemma build_items_loop : forall system_type rom_prefix games acc,
  forallb game_entry games = true ->
  exists items,
    for_each (build_items_body system_type rom_prefix) games acc = Ok (acc ++ items)
    /\ Forall2 (item_of_entry system_type rom_prefix)
               (filter (survives rom_prefix) games) items.
Proof.
  intros system_type rom_prefix.
  induction games as [|entry games IH]; intros acc Hg.
  - exists []. simpl. rewrite app_nil_r. split; [reflexivity | constructor].
  - simpl in Hg. apply andb_true_iff in Hg as [He Hg].
    destruct (entry_outcome rom_prefix entry He)
      as (title & rom_url & Hl & Hlc & Ht & Htc & Hs).
    simpl. rewrite (build_items_body_eq system_type _ _ acc Hl Ht). simpl.
    rewrite Hs.
    destruct (truthy title && truthy rom_url) eqn:Hb.
    + destruct (IH (acc ++ [JDict (make_item system_type
                                     (normalize_game_entry entry) title rom_url)]) Hg)
        as [items [Hrun Hall]].
      eexists (_ :: items). rewrite Hrun, <- app_assoc. split; [reflexivity|].
      constructor; [|exact Hall].
      apply andb_true_iff in Hb as [Tt Tr].
      exists title, rom_url.
      destruct (make_item_fields system_type (normalize_game_entry entry)
                                 title rom_url) as (F1 & F2 & F3 & F4).
      destruct Htc as [-> | Hn]; [discriminate|]. auto 10.
    + destruct (IH acc Hg) as [items [Hrun Hall]].
      exists items. now split.
Qed.


(* ------------------------------------------------------------------ *)
(** ** Artwork *)

Lemma first_truthy_cases : forall d keys,
  first_truthy d keys = JNull \/ truthy (first_truthy d keys) = true.
Proof.
  induction keys as [|k keys IH]; simpl; [now left|].
  destruct (truthy (get d k)) eqn:E; [now right | exact IH].
Qed.

Lemma first_truthy_text : forall d keys,
  text_fields keys d = true -> is_text (first_truthy d keys) = true.
Proof.
  induction keys as [|k keys IH]; intro H; simpl in *; [reflexivity|].
  apply andb_true_iff in H as [Hk Hr].
  destruct (truthy (get d k)); [exact Hk | now apply IH].
Qed.

Lemma text_truthy_eq : forall v, is_text v = true -> truthy v = nonempty_str v.
Proof. intros [ | | | | [|c s] | | ] H; try discriminate; reflexivity. Qed.

Lemma build_items_body_inv : forall system_type rom_prefix entry items result,
  build_items_body system_type rom_prefix entry items = Ok result ->
  result = items
  \/ exists title rom_url,
       result = items ++ [JDict (make_item system_type (normalize_game_entry entry)
                                           title rom_url)].
Proof.
  intros system_type rom_prefix entry items result H.
  unfold build_items_body in H.
  destruct (resolve_rom_url _ _) as [rom_url|]; simpl in H; [|discriminate].
  destruct (clean_title _ _) as [title|]; simpl in H; [|discriminate].
  destruct (negb (truthy title) || negb (truthy rom_url));
    inversion H; subst; [now left | right; now exists title, rom_url].
Qed.

Lemma make_item_artwork : forall system_type game title rom_url,
  let item := make_item system_type game title rom_url in
  has_key item (lit "thumbnail") = truthy (extract_thumbnail game)
  /\ (truthy (extract_thumbnail game) = true ->
      get item (lit "thumbnail") = extract_thumbnail game)
  /\ has_key item (lit "background") = truthy (extract_background game)
  /\ (truthy (extract_background game) = true ->
      get item (lit "background") = extract_background game).
Proof.
  intros system_type game title rom_url. unfold make_item. cbv zeta.
  destruct (truthy (extract_thumbnail game)) eqn:Et,
           (truthy (extract_background game)) eqn:Eb;
    repeat split; intros; try reflexivity; discriminate.
Qed.

(** C10 (amended).  An item that [build_items] appends for a game carries a
    [thumbnail] key exactly when one of [img], [thumbnail], [image] is
    present and not empty, and then holds the first of them that is not
    empty: an earlier field that is present but empty is passed over, and
    never attached.  The same holds for [background] with [background],
    [banner], [screenshot].  With string fields the attached value is a
    string that is not empty. *)
Theorem build_items_artwork : forall system_type rom_prefix entry items result,
  build_items_body system_type rom_prefix entry items = Ok result ->
  result = items
  \/ exists item,
       result = items ++ [JDict item]
       /\ let game := normalize_game_entry entry in
          let thumbnail := first_truthy game thumbnail_keys in
          let background := first_truthy game background_keys in
          has_key item (lit "thumbnail") = truthy thumbnail
          /\ (truthy thumbnail = true -> get item (lit "thumbnail") = thumbnail)
          /\ has_key item (lit "background") = truthy background
          /\ (truthy background = true -> get item (lit "background") = background)
          /\ (text_fields thumbnail_keys game = true ->
              has_key item (lit "thumbnail") = nonempty_str thumbnail)
          /\ (text_fields background_keys game = true ->
              has_key item (lit "background") = nonempty_str background).
Proof.
  intros system_type rom_prefix entry items result H.
  apply build_items_body_inv in H as [-> | (title & rom_url & ->)]; [now left|].
  right. eexists. split; [reflexivity|]. cbv zeta.
  destruct (make_item_artwork system_type (normalize_game_entry entry) title rom_url)
    as (T1 & T2 & B1 & B2).
  destruct (py_or_first_truthy3 (normalize_game_entry entry)
              (lit "img") (lit "thumbnail") (lit "image")) as [Ht Ht'].
  destruct (py_or_first_truthy3 (normalize_game_entry entry)
              (lit "background") (lit "banner") (lit "screenshot")) as [Hb Hb'].
  fold (extract_thumbnail (normalize_game_entry entry)) in Ht, Ht'.
  fold (extract_background (normalize_game_entry entry)) in Hb, Hb'.
  fold thumbnail_keys in Ht, Ht'. fold background_keys in Hb, Hb'.
  rewrite T1, B1, Ht, Hb.
  repeat split.
  - intro T. rewrite T2 by congruence. now apply Ht'.
  - intro T. rewrite B2 by congruence. now apply Hb'.
  - intro Hx. now apply text_truthy_eq, first_truthy_text.
  - intro Hx. now apply text_truthy_eq, first_truthy_text.
Qed.

(* ------------------------------------------------------------------ *)
(** ** The mapping resolver *)

Lemma get_absent : forall d k, has_key d k = false -> get d k = JNull.
Proof.
  induction d as [|[k' v] d IH]; intros k H; simpl in *; [reflexivity|].
  apply orb_false_iff in H as [H1 H2]. rewrite H1. now apply IH.
Qed.

Lemma get_set_same : forall d k v, get (set d k v) k = v.
Proof.
  induction d as [|[k' v'] d IH]; intros k v; simpl.
  - now rewrite str_eqb_refl.
  - destruct (str_eqb k' k) eqn:E; simpl.
    + now rewrite str_eqb_refl.
    + now rewrite E.
Qed.

Lemma get_set_other : forall d k v k',
  str_eqb k k' = false -> get (set d k v) k' = get d k'.
Proof.
  induction d as [|[k0 v0] d IH]; intros k v k' H; simpl.
  - now rewrite H.
  - destruct (str_eqb k0 k) eqn:E; simpl.
    + apply str_eqb_eq in E. subst k0. now rewrite H.
    + destruct (str_eqb k0 k'); [reflexivity | now apply IH].
Qed.

Section Resolver.
Context {env : PyEnv}.

Lemma usable_name_py_or : forall system,
  text_fields system_keys system = true ->
  let name := py_or (get system (lit "name")) (get system (lit "platform_name")) in
  (truthy name = false /\ usable_name system = JNull)
  \/ (exists c s, name = JStr (c :: s) /\ usable_name system = JStr (c :: s)).
Proof.
  intros system Ht name.
  destruct (py_or_first_truthy2 system (lit "name") (lit "platform_name"))
    as [Hn Hn'].
  fold name in Hn, Hn'. fold (usable_name system) in Hn, Hn'.
  assert (Htext : is_text name = true).
  { apply is_text_py_or; apply (text_field system_keys); try assumption;
      unfold system_keys; simpl; auto. }
  destruct (truthy name) eqn:T.
  - right. destruct (text_truthy name Htext T) as [c [s E]].
    exists c, s. split; [exact E|]. rewrite <- Hn' by congruence. exact E.
  - left. split; [reflexivity|].
    destruct (first_truthy_cases system [lit "name"; lit "platform_name"])
      as [E | E]; [exact E|].
    unfold usable_name in Hn. congruence.
Qed.

Lemma map_system_name_lookup : forall system mapping,
  system_record system = true ->
  map_system_name (JDict system) (JDict mapping) = Ok (lookup_order system mapping).
Proof.
  intros system mapping Ht. unfold system_record in Ht.
  unfold map_system_name, lookup_order. simpl get_method. simpl bind.
  destruct (usable_name_py_or system Ht) as [[F E] | (c & s & En & Eu)].
  - rewrite F, E. reflexivity.
  - rewrite En, Eu. simpl truthy. simpl negb. cbv iota.
    unfold py_get. simpl get_method. simpl bind.
    destruct (truthy (get mapping (c :: s))) eqn:Tm; [reflexivity|].
    unfold folder_then_scan.
    assert (Hf : is_text (get system (lit "folder")) = true).
    { apply (text_field system_keys); [assumption|].
      unfold system_keys; simpl; auto. }
    destruct (get system (lit "folder")) as [ | | | | [|x folder] | | ];
      try discriminate; try reflexivity.
    simpl truthy. simpl negb. cbv iota. simpl bind.
    destruct (truthy (get mapping (x :: folder))) eqn:Tf; simpl bind.
    + rewrite Tf. reflexivity.
    + destruct (truthy (get mapping (lower (x :: folder)))); reflexivity.
Qed.

Lemma truthy_has_key : forall mapping k,
  (forall k', has_key mapping k' = true -> truthy (get mapping k') = true) ->
  truthy (get mapping k) = has_key mapping k.
Proof.
  intros mapping k H. destruct (has_key mapping k) eqn:E.
  - now apply H.
  - now rewrite get_absent.
Qed.

(** The loop of the code finds what the scan of the spec's words finds. *)
Lemma scan_items_find : forall name (mapping : dict),
  scan_items (lower name) mapping = case_insensitive_scan name mapping.
Proof.
  intros name mapping. unfold case_insensitive_scan.
  induction mapping as [|[k v] mapping IH]; simpl; [reflexivity|].
  destruct (str_eqb (lower k) (lower name)); [reflexivity | exact IH].
Qed.

(** C2 (amended).  For every system record and every mapping table,
    [map_system_name] raises no error and applies the rules in this
    precedence, first hit winning: the exact name, then (if the record has a
    folder that is not empty) the exact folder followed by the lower-cased
    folder, then the scan of the keys, in table order, for one whose
    lower-casing is the lower-cased name (the loop of the code finds the
    first such key of the table).  An entry whose value is empty is
    no hit for the name and folder rules; the scan returns the value of the
    first matching key as it is.  Without a usable name the result is
    absent.  On a table with no empty value, and for a record whose folder
    is absent or not the empty string, this is the order of the spec; an
    empty folder is no folder for the code, while the order of the spec
    looks it up. *)
Theorem map_system_name_order : forall (system mapping : dict),
  system_record system = true ->
  map_system_name (JDict system) (JDict mapping) = Ok (lookup_order system mapping)
  /\ (usable_name system = JNull -> lookup_order system mapping = JNull)
  /\ ((forall k, has_key mapping k = true -> truthy (get mapping k) = true) ->
      get system (lit "folder") <> JStr [] ->
      lookup_order system mapping = spec_lookup_order system mapping)
  /\ (forall name,
        scan_items (lower name) mapping = case_insensitive_scan name mapping).
Proof.
  intros system mapping Ht. split; [now apply map_system_name_lookup|].
  split; [|split; [|intro name; apply scan_items_find]].
  - intro E. unfold lookup_order. now rewrite E.
  - intros Hv Hf. unfold lookup_order, spec_lookup_order, folder_then_scan.
    destruct (usable_name system); try reflexivity.
    rewrite !truthy_has_key by exact Hv. rewrite <- !scan_items_find.
    destruct (has_key mapping s); [reflexivity|].
    destruct (get system (lit "folder")) as [ | | | | [|x folder] | | ];
      try reflexivity; [contradiction|].
    rewrite !truthy_has_key by exact Hv. reflexivity.
Qed.

End Resolver.

(* ------------------------------------------------------------------ *)
(** ** The feed assembler *)

Lemma has_key_set : forall d k v k',
  has_key (set d k v) k' = has_key d k' || str_eqb k k'.
Proof.
  induction d as [|[k0 v0] d IH]; intros k v k'; simpl.
  - now rewrite orb_false_r.
  - destruct (str_eqb k0 k) eqn:E; simpl.
    + apply str_eqb_eq in E. subst k0.
      destruct (str_eqb k k'), (has_key d k'); reflexivity.
    + rewrite IH. now rewrite orb_assoc.
Qed.

Lemma for_each_invariant : forall (A S : Type) (P : S -> Prop)
    (body : A -> S -> pyres S),
  (forall x s s', P s -> body x s = Ok s' -> P s') ->
  forall l s s', P s -> for_each body l s = Ok s' -> P s'.
Proof.
  intros A S P body Hstep. induction l as [|x l IH]; intros s s' Hs H; simpl in H.
  - now inversion H; subst.
  - destruct (body x s) as [s1|] eqn:E; simpl in H; [|discriminate].
    apply (IH s1 s'); [now apply (Hstep x s) | exact H].
Qed.

Lemma get_text_values : forall (m : dict) k,
  forallb (fun kv => match snd kv with JStr _ => true | _ => false end) m = true ->
  is_text (get m k) = true.
Proof.
  induction m as [|[k' v] m IH]; intros k H; simpl in *; [reflexivity|].
  apply andb_true_iff in H as [Hv Hm].
  destruct (str_eqb k' k); [now destruct v | now apply IH].
Qed.

Lemma get_key_text : forall (m : dict) key v,
  forallb (fun kv => match snd kv with JStr _ => true | _ => false end) m = true ->
  get_key m key = Ok v -> is_text v = true.
Proof.
  intros m key v Hm H. destruct key; simpl in H; inversion H; subst;
    try reflexivity. now apply get_text_values.
Qed.

Lemma build_items_types : forall games system_type rom_prefix items,
  build_items games system_type rom_prefix = Ok items ->
  Forall (fun item => field item (lit "type") = system_type) items.
Proof.
  intros games system_type rom_prefix items H. unfold build_items in H.
  destruct (py_iter games) as [entries|]; simpl in H; [|discriminate].
  revert H. apply for_each_invariant; [|constructor].
  intros entry acc acc' Hacc Hbody.
  apply build_items_body_inv in Hbody as [-> | (title & rom_url & ->)];
    [exact Hacc|].
  apply Forall_app. split; [exact Hacc|]. constructor; [|constructor].
  now destruct (make_item_fields system_type (normalize_game_entry entry)
                                 title rom_url) as (_ & F & _).
Qed.

Section Assembler.
Context {env : PyEnv}.

Lemma scan_items_text : forall lowered (m : dict),
  forallb (fun kv => match snd kv with JStr _ => true | _ => false end) m = true ->
  is_text (scan_items lowered m) = true.
Proof.
  induction m as [|[k v] m IH]; intro H; simpl in *; [reflexivity|].
  apply andb_true_iff in H as [Hv Hm].
  destruct (str_eqb (lower k) lowered); [now destruct v | now apply IH].
Qed.

(** Whatever the system record, a mapping found in a table of strings is a
    string (or absent). *)
Lemma map_system_name_text : forall system mapping v,
  mapping_table mapping = true ->
  map_system_name system mapping = Ok v -> is_text v = true.
Proof.
  intros system mapping v Hm H.
  destruct mapping as [ | | | | | | m]; try discriminate. simpl in Hm.
  unfold map_system_name in H.
  destruct system as [ | | | | | | sys]; try discriminate. simpl in H.
  set (name := py_or (get sys (lit "name")) (get sys (lit "platform_name"))) in *.
  destruct (truthy name); simpl in H; [|now inversion H].
  unfold py_get in H. simpl in H.
  destruct (get_key m name) as [mapped|] eqn:E1; simpl in H; [|discriminate].
  destruct (truthy mapped).
  { inversion H; subst. now apply (get_key_text m name). }
  assert (Hscan : forall r, scan_mapping name (JDict m) = Ok r -> is_text r = true).
  { intros r Hr. unfold scan_mapping in Hr.
    destruct (str_lower name) as [lowered|]; simpl in Hr; [|discriminate].
    inversion Hr; subst. now apply scan_items_text. }
  destruct (truthy (get sys (lit "folder"))); [|now apply Hscan].
  destruct (get_key m (get sys (lit "folder"))) as [exact|] eqn:E2; simpl in H;
    [|discriminate].
  destruct (truthy exact) eqn:Te; simpl in H.
  - rewrite Te in H. inversion H; subst.
    now apply (get_key_text m (get sys (lit "folder"))).
  - destruct (str_lower (get sys (lit "folder"))) as [lowered|]; simpl in H;
      [|discriminate].
    destruct (truthy (get m lowered)) eqn:Tl; [|now apply Hscan].
    inversion H; subst. now apply get_text_values.
Qed.

Lemma generate_feed_body_types :
  forall (Q : json -> Prop) w config mapping system categories result,
  (forall v, map_system_name system mapping = Ok v -> truthy v = true -> Q v) ->
  typed_categories Q categories ->
  generate_feed_body w config mapping system categories = Ok result ->
  typed_categories Q result.
Proof.
  intros Q w config mapping system categories result HQ Hc H.
  unfold generate_feed_body in H.
  destruct (map_system_name system mapping) as [system_type|] eqn:Es;
    simpl in H; [|discriminate].
  destruct (truthy system_type) eqn:Tt; simpl in H; [|now inversion H; subst].
  destruct (get_method system) as [sys|]; simpl in H; [|discriminate].
  destruct (load_json w _) as [games|]; simpl in H; [|discriminate].
  destruct (is_none games); [now inversion H; subst|].
  destruct (build_items _ _ _) as [items|] eqn:Eb; simpl in H; [|discriminate].
  destruct (is_empty items); inversion H; subst; [exact Hc|].
  apply Forall_app. split; [exact Hc|]. constructor; [|constructor].
  simpl. apply build_items_types in Eb.
  eapply Forall_impl; [|exact Eb]. intros item Hitem. simpl in Hitem.
  rewrite Hitem. now apply HQ.
Qed.

(** [generate_feed] step by step: the status and the documents of the
    run. *)
Lemma generate_feed_eq : forall w config dry_run,
  generate_feed w config dry_run
  = (systems <- load_json w (systems_file config) ;;
     if is_none systems then Ok (1%Z, [])
     else
       mapping <- load_json w (mapping_path config) ;;
       if is_none mapping then Ok (1%Z, [])
       else
         let feed : dict :=
           [(lit "title", JStr (feed_title config));
            (lit "longTitle", JStr (feed_title config));
            (lit "description", JStr (feed_description config));
            (lit "categories", JList [])] in
         let feed_props := feed_props_of config in
         let feed :=
           if negb (is_empty feed_props)
           then set feed (lit "props") (JDict feed_props)
           else feed in
         systems_list <- py_iter systems ;;
         categories <-
           for_each (generate_feed_body w config mapping) systems_list [] ;;
         let feed := set feed (lit "categories") (JList categories) in
         if negb (truthy (get feed (lit "categories"))) then Ok (1%Z, [])
         else results (emit_feed w config dry_run (JDict feed))).
Proof.
  intros w config dry_run. unfold generate_feed, generate_feed_run.
  destruct (load_json w (systems_file config)) as [systems|];
    cbn [run_bind bind]; [|reflexivity].
  destruct (is_none systems); [reflexivity|].
  destruct (load_json w (mapping_path config)) as [mapping|];
    cbn [run_bind bind]; [|reflexivity].
  destruct (is_none mapping); [reflexivity|]. cbv zeta.
  destruct (py_iter systems) as [systems_list|]; cbn [run_bind bind];
    [|reflexivity].
  destruct (for_each _ systems_list []) as [categories|]; cbn [run_bind bind];
    [|reflexivity].
  destruct (negb (truthy _)); reflexivity.
Qed.

(** What the last step returns: status 1 and no document, or status 0 and
    the feed, printed in a dry run and written otherwise. *)
Lemma emit_feed_results : forall w config dry_run doc rc outs,
  results (emit_feed w config dry_run doc) = Ok (rc, outs) ->
  (rc = 1%Z /\ outs = [] /\ dry_run = false)
  \/ (rc = 0%Z
      /\ outs = [if dry_run then Printed doc
                 else Written (output_path config) doc]).
Proof.
  intros w config dry_run doc rc outs H. unfold emit_feed, results in H.
  destruct dry_run.
  - destruct (printing w doc); cbn [quiet returned emitted bind] in H;
      [discriminate|].
    inversion H. now right.
  - cbv zeta in H.
    destruct (mkdir w (output_path config));
      cbn [quiet returned emitted bind] in H; [discriminate|].
    destruct (if has_nul (output_path config) then Some ValueError
              else opening w (output_path config)) as [e|].
    + destruct (is_OSError e); cbn [quiet returned emitted bind] in H;
        [|discriminate].
      inversion H. now left.
    + destruct (writing w (output_path config) doc) as [e|];
        cbn [returned emitted bind] in H.
      * destruct (is_OSError e); cbn [bind] in H; [|discriminate].
        inversion H. now left.
      * inversion H. now right.
Qed.

(** The two ways [generate_feed] returns: a failure that emits nothing, or
    one document holding the categories of the loop. *)
Lemma generate_feed_inv : forall w config dry_run rc outs,
  generate_feed w config dry_run = Ok (rc, outs) ->
  (rc = 1%Z /\ outs = [])
  \/ exists systems mapping systems_list categories doc,
       load_json w (systems_file config) = Ok systems
       /\ load_json w (mapping_path config) = Ok mapping
       /\ py_iter systems = Ok systems_list
       /\ for_each (generate_feed_body w config mapping) systems_list []
          = Ok categories
       /\ categories <> []
       /\ rc = 0%Z
       /\ (outs = [Printed doc] \/ outs = [Written (output_path config) doc])
       /\ field doc (lit "categories") = JList categories
       /\ has_field doc (lit "props") = negb (is_empty (feed_props_of config))
       /\ field doc (lit "props")
          = (if is_empty (feed_props_of config) then JNull
             else JDict (feed_props_of config)).
Proof.
  intros w config dry_run rc outs H. rewrite generate_feed_eq in H.
  destruct (load_json w (systems_file config)) as [systems|]; cbn [bind] in H;
    [|discriminate].
  destruct (is_none systems); [left; now inversion H|].
  destruct (load_json w (mapping_path config)) as [mapping|]; cbn [bind] in H;
    [|discriminate].
  destruct (is_none mapping); [left; now inversion H|]. cbv zeta in H.
  destruct (py_iter _) as [systems_list|] eqn:Ei; cbn [bind] in H;
    [|discriminate].
  destruct (for_each _ _ _) as [categories|] eqn:Ef; cbn [bind] in H;
    [|discriminate].
  rewrite get_set_same in H.
  destruct categories as [|cat categories]; cbn [truthy is_empty negb] in H;
    [left; now inversion H|].
  match type of H with
  | results (emit_feed _ _ _ ?d) = _ => set (doc := d) in *
  end.
  assert (Hdoc : field doc (lit "categories") = JList (cat :: categories)
                 /\ has_field doc (lit "props")
                    = negb (is_empty (feed_props_of config))
                 /\ field doc (lit "props")
                    = (if is_empty (feed_props_of config) then JNull
                       else JDict (feed_props_of config))).
  { unfold doc. simpl field. simpl has_field.
    rewrite get_set_same, has_key_set, get_set_other by reflexivity.
    destruct (is_empty (feed_props_of config)); simpl negb; cbv iota;
      repeat split. }
  destruct Hdoc as (D1 & D2 & D3).
  apply emit_feed_results in H as [(-> & -> & _) | (-> & ->)]; [now left|].
  right. exists systems, mapping, systems_list, (cat :: categories), doc.
  repeat split; auto; try discriminate.
  destruct dry_run; auto.
Qed.

(** C6.  Whatever the systems list and the mapping table, when the loop
    over the systems ends with no category [generate_feed] returns 1 and
    emits nothing, neither to the output file nor to standard output; a
    document is emitted only with status 0, once, and holds the categories
    of the loop, of which there is at least one. *)
Theorem generate_feed_requires_categories : forall w config dry_run,
  (forall systems mapping systems_list,
     load_json w (systems_file config) = Ok systems ->
     load_json w (mapping_path config) = Ok mapping ->
     py_iter systems = Ok systems_list ->
     for_each (generate_feed_body w config mapping) systems_list [] = Ok [] ->
     generate_feed w config dry_run = Ok (1%Z, []))
  /\ (forall rc outs,
        generate_feed w config dry_run = Ok (rc, outs) -> outs <> [] ->
        exists systems mapping systems_list categories doc,
          load_json w (systems_file config) = Ok systems
          /\ load_json w (mapping_path config) = Ok mapping
          /\ py_iter systems = Ok systems_list
          /\ for_each (generate_feed_body w config mapping) systems_list []
             = Ok categories
          /\ categories <> []
          /\ rc = 0%Z
          /\ (outs = [Printed doc] \/ outs = [Written (output_path config) doc])
          /\ field doc (lit "categories") = JList categories).
Proof.
  intros w config dry_run. split.
  - intros systems mapping systems_list Hs Hm Hi Hf. rewrite generate_feed_eq.
    rewrite Hs. simpl bind.
    destruct (is_none systems); [reflexivity|].
    rewrite Hm. simpl bind.
    destruct (is_none mapping); [reflexivity|].
    rewrite Hi. simpl bind. rewrite Hf. simpl bind.
    rewrite get_set_same. reflexivity.
  - intros rc outs H Hne.
    apply generate_feed_inv in H
      as [[_ ->] | (sy & mp & sl & cats & doc & Hs & Hm & Hi & Hf & Hc & Hrc & Ho
                    & Hd & _)];
      [contradiction|].
    exists sy, mp, sl, cats, doc. auto 10.
Qed.

Lemma items_of_feed_types : forall (Q : json -> Prop) doc categories,
  field doc (lit "categories") = JList categories ->
  typed_categories Q categories ->
  Forall (fun item => Q (field item (lit "type"))) (items_of_feed doc).
Proof.
  intros Q doc categories Hd Hc. unfold items_of_feed. rewrite Hd. simpl.
  apply Forall_flat_map. exact Hc.
Qed.

Lemma generate_feed_types : forall (Q : json -> Prop) w config dry_run rc outs,
  (forall system mapping v,
     load_json w (mapping_path config) = Ok mapping ->
     map_system_name system mapping = Ok v ->
     truthy v = true -> Q v) ->
  generate_feed w config dry_run = Ok (rc, outs) ->
  Forall (fun o => Forall (fun item => Q (field item (lit "type")))
                          (items_of_feed (doc_of o)))
         outs.
Proof.
  intros Q w config dry_run rc outs HQ H.
  apply generate_feed_inv in H
    as [[_ ->] | (sy & mp & sl & cats & doc & Hs & Hm & Hi & Hf & Hc & Hrc & Ho
                  & Hd & _)];
    [constructor|].
  assert (Ht : typed_categories Q cats).
  { revert Hf. apply for_each_invariant; [|constructor].
    intros system acc acc' Hacc Hbody.
    eapply generate_feed_body_types; try eassumption.
    intros v. now apply HQ. }
  destruct Ho as [-> | ->]; (apply Forall_cons; [|apply Forall_nil]);
    simpl doc_of; eapply items_of_feed_types; eassumption.
Qed.

(** C9.  Every item of every emitted feed has a [type] that is not empty,
    and with a mapping table of strings it is a string that is not empty:
    the assembler skips a system whose resolved type is absent or empty,
    and in [map_system_name] an entry whose value is the empty string
    counts, for the name rule and for the folder rule, as an entry that is
    not there: the lookup goes on to the later rules. *)
Theorem feed_item_types :
  (forall w config dry_run rc outs,
     generate_feed w config dry_run = Ok (rc, outs) ->
     Forall (fun o =>
               Forall (fun item => truthy (field item (lit "type")) = true)
                      (items_of_feed (doc_of o)))
            outs
     /\ ((forall mapping,
            load_json w (mapping_path config) = Ok mapping ->
            mapping_table mapping = true) ->
         Forall (fun o =>
                   Forall (fun item =>
                             nonempty_str (field item (lit "type")) = true)
                          (items_of_feed (doc_of o)))
                outs))
  /\ (forall w config mapping system categories system_type,
        map_system_name system mapping = Ok system_type ->
        truthy system_type = false ->
        generate_feed_body w config mapping system categories = Ok categories)
  /\ (forall system mapping name,
        system_record system = true ->
        usable_name system = JStr name ->
        get mapping name = JStr [] \/ has_key mapping name = false ->
        map_system_name (JDict system) (JDict mapping)
        = Ok (folder_then_scan system mapping name))
  /\ (forall system mapping name folder,
        get system (lit "folder") = JStr folder ->
        get mapping folder = JStr [] \/ has_key mapping folder = false ->
        get mapping (lower folder) = JStr []
        \/ has_key mapping (lower folder) = false ->
        folder_then_scan system mapping name = scan_items (lower name) mapping).
Proof.
  split; [|split; [|split]].
  - intros w config dry_run rc outs H. split.
    + revert H. apply generate_feed_types with (Q := fun v => truthy v = true).
      auto.
    + intro Hm. revert H.
      apply generate_feed_types with (Q := fun v => nonempty_str v = true).
      intros system mapping v Hl Hv Tv. apply text_truthy_nonempty; [|exact Tv].
      apply (map_system_name_text system mapping); [now apply Hm | exact Hv].
  - intros w config mapping system categories system_type Hs Hf.
    unfold generate_feed_body. rewrite Hs. simpl. now rewrite Hf.
  - intros system mapping name Hr Hn Hv.
    rewrite map_system_name_lookup by exact Hr.
    unfold lookup_order. rewrite Hn.
    destruct Hv as [E | E]; [now rewrite E | now rewrite (get_absent _ _ E)].
  - intros system mapping name folder Hf H1 H2.
    unfold folder_then_scan. rewrite Hf.
    destruct folder as [|c folder]; [reflexivity|].
    assert (F1 : truthy (get mapping (c :: folder)) = false)
      by (destruct H1 as [E | E]; [now rewrite E | now rewrite (get_absent _ _ E)]).
    assert (F2 : truthy (get mapping (lower (c :: folder))) = false)
      by (destruct H2 as [E | E]; [now rewrite E | now rewrite (get_absent _ _ E)]).
    now rewrite F1, F2.
Qed.

Lemma split_free : forall sep u, free_of sep u = true -> split sep u = [u].
Proof.
  induction u as [|x u IH]; intro H; simpl in *; [reflexivity|].
  apply andb_true_iff in H as [Hx Hu]. apply negb_true_iff in Hx.
  rewrite Hx, (IH Hu). reflexivity.
Qed.

Lemma split_app : forall sep u rest,
  free_of sep u = true -> split sep (u ++ sep :: rest) = u :: split sep rest.
Proof.
  induction u as [|x u IH]; intros rest H; simpl in *.
  - now rewrite N.eqb_refl.
  - apply andb_true_iff in H as [Hx Hu]. apply negb_true_iff in Hx.
    rewrite Hx, (IH rest Hu). reflexivity.
Qed.

Lemma feed_props_psx : forall config,
  has_key (feed_props_of config) (lit "psx_bios")
  = configured_urls (psx_bios_urls config)
  /\ (forall urls,
        psx_bios_urls config = Some urls -> urls <> [] ->
        get (feed_props_of config) (lit "psx_bios") = JList (map JStr urls)).
Proof.
  intro config. unfold feed_props_of. cbv zeta. split.
  - destruct (configured_urls (psx_bios_urls config)).
    + rewrite has_key_set, str_eqb_refl. apply orb_true_r.
    + destruct (configured_url (neogeo_bios_url config)); reflexivity.
  - intros urls E Hne. rewrite E. destruct urls as [|u urls]; [contradiction|].
    simpl configured_urls. cbv iota. apply get_set_same.
Qed.

Lemma feed_props_neogeo : forall config,
  has_key (feed_props_of config) (lit "neogeo_bios")
  = configured_url (neogeo_bios_url config).
Proof.
  intro config. unfold feed_props_of. cbv zeta.
  destruct (configured_urls (psx_bios_urls config)).
  - rewrite has_key_set.
    destruct (configured_url (neogeo_bios_url config)); reflexivity.
  - destruct (configured_url (neogeo_bios_url config)); reflexivity.
Qed.

Lemma props_field_key : forall (props : dict) k,
  has_field (if is_empty props then JNull else JDict props) k = has_key props k
  /\ field (if is_empty props then JNull else JDict props) k = get props k.
Proof. intros [|kv props] k; split; reflexivity. Qed.

Lemma psx_bios_urls_env : forall environ utcnow,
  psx_bios_urls (build_config environ utcnow)
  = (let psx_bios_env :=
       environ_get environ (lit "PSX_BIOS_URLS") DEFAULT_PSX_BIOS_URLS in
     if negb (is_empty psx_bios_env)
     then Some (filter (fun url => negb (is_empty url))
                       (map strip (split (chr ",") psx_bios_env)))
     else None).
Proof. reflexivity. Qed.

(** C5 (amended).  A configured PlayStation BIOS list of three
    comma-separated URLs yields [feed.props.psx_bios] as the sequence of
    the three URLs (each trimmed) in the given order.  When [PSX_BIOS_URLS]
    is not set the built-in list of three URLs is used, so the feed still
    carries [psx_bios]; the key is left out only when the configured value
    is empty (the variable set to the empty string, or to commas and
    blanks).  An emitted feed has [props.psx_bios] exactly when the list of
    the configuration is present and not empty. *)
Theorem psx_bios_props :
  (forall environ utcnow u1 u2 u3,
     environ (lit "PSX_BIOS_URLS") = Some (u1 ++ lit "," ++ u2 ++ lit "," ++ u3) ->
     free_of (chr ",") u1 = true -> free_of (chr ",") u2 = true ->
     free_of (chr ",") u3 = true ->
     strip u1 <> [] -> strip u2 <> [] -> strip u3 <> [] ->
     let config := build_config environ utcnow in
     psx_bios_urls config = Some [strip u1; strip u2; strip u3]
     /\ get (feed_props_of config) (lit "psx_bios")
        = JList [JStr (strip u1); JStr (strip u2); JStr (strip u3)])
  /\ (forall environ utcnow,
        environ (lit "PSX_BIOS_URLS") = None ->
        get (feed_props_of (build_config environ utcnow)) (lit "psx_bios")
        = JList [JStr (lit "https://psx.arthus.net/roms/bios/scph5500.bin");
                 JStr (lit "https://psx.arthus.net/roms/bios/scph5501.bin");
                 JStr (lit "https://psx.arthus.net/roms/bios/scph5502.bin")])
  /\ (forall environ utcnow,
        environ (lit "PSX_BIOS_URLS") = Some [] ->
        has_key (feed_props_of (build_config environ utcnow)) (lit "psx_bios")
        = false)
  /\ (forall w config dry_run rc outs doc,
        generate_feed w config dry_run = Ok (rc, outs) ->
        In doc (map doc_of outs) ->
        has_field (field doc (lit "props")) (lit "psx_bios")
        = configured_urls (psx_bios_urls config)
        /\ has_field (field doc (lit "props")) (lit "neogeo_bios")
           = configured_url (neogeo_bios_url config)
        /\ (forall urls,
              psx_bios_urls config = Some urls -> urls <> [] ->
              field (field doc (lit "props")) (lit "psx_bios")
              = JList (map JStr urls))).
Proof.
  split; [|split; [|split]].
  - intros environ utcnow u1 u2 u3 He F1 F2 F3 S1 S2 S3 config.
    assert (Hurls : psx_bios_urls config = Some [strip u1; strip u2; strip u3]).
    { unfold config. rewrite psx_bios_urls_env. unfold environ_get. rewrite He.
      cbv zeta.
      assert (Hne : is_empty (u1 ++ lit "," ++ u2 ++ lit "," ++ u3) = false)
        by (destruct u1; reflexivity).
      rewrite Hne. simpl negb. cbv iota.
      change (u1 ++ lit "," ++ u2 ++ lit "," ++ u3)
        with (u1 ++ chr "," :: (u2 ++ chr "," :: u3)).
      rewrite !split_app, split_free by assumption.
      simpl map. simpl filter.
      destruct (strip u1); [contradiction|].
      destruct (strip u2); [contradiction|].
      destruct (strip u3); [contradiction|]. reflexivity. }
    split; [exact Hurls|].
    destruct (feed_props_psx config) as [_ Hget].
    rewrite (Hget _ Hurls) by discriminate. reflexivity.
  - intros environ utcnow He.
    destruct (feed_props_psx (build_config environ utcnow)) as [_ Hget].
    apply (Hget [lit "https://psx.arthus.net/roms/bios/scph5500.bin";
                 lit "https://psx.arthus.net/roms/bios/scph5501.bin";
                 lit "https://psx.arthus.net/roms/bios/scph5502.bin"]);
      [|discriminate].
    rewrite psx_bios_urls_env. unfold environ_get. rewrite He.
    vm_compute. reflexivity.
  - intros environ utcnow He.
    destruct (feed_props_psx (build_config environ utcnow)) as [Hkey _].
    rewrite Hkey, psx_bios_urls_env. unfold environ_get. rewrite He. reflexivity.
  - intros w config dry_run rc outs doc H Hin.
    apply generate_feed_inv in H
      as [[_ ->] | (sy & mp & sl & cats & d & _ & _ & _ & _ & _ & _ & Ho & _
                    & _ & Hp)];
      [contradiction|].
    assert (doc = d) by (destruct Ho as [-> | ->]; simpl in Hin; intuition).
    subst d. rewrite Hp.
    destruct (props_field_key (feed_props_of config) (lit "psx_bios")) as [K1 K2].
    destruct (props_field_key (feed_props_of config) (lit "neogeo_bios"))
      as [K3 _].
    destruct (feed_props_psx config) as [P1 P2].
    rewrite K1, K2, K3. split; [exact P1|].
    split; [apply feed_props_neogeo | exact P2].
Qed.

End Assembler.

(* ------------------------------------------------------------------ *)
(** ** The embedding on the repository's test and on the spec's scenario *)

(** [test_normalize_array_entry_and_title_cleanup] of
    [tests_rgsx/test_build_feed.py]. *)
Example test_normalize_array_entry_and_title_cleanup :
  let raw_entry := nth 0 sample_entries JNull in
  let normalized := normalize_game_entry raw_entry in
  let rom_url := get normalized (lit "url") in
  get normalized (lit "title") = JStr (lit "Mega Example (USA).zip")
  /\ clean_title (get normalized (lit "title")) rom_url
     = Ok (JStr (lit "Mega Example (USA)"))
  /\ exists item,
       build_items (JList [raw_entry]) (JStr (lit "nes")) None = Ok [item]
       /\ field (field item (lit "props")) (lit "rom") = rom_url
       /\ field item (lit "title") = JStr (lit "Mega Example (USA)").
Proof. cbv zeta. split; [|split]; try reflexivity. eexists. repeat split. Qed.

(** Scenario A: one category ["Mega Drive"] with the item ["Sonic (USA)"]
    of type ["genesis"], written to the default output path. *)
Example scenario_A :
  exists doc category item,
    generate_feed sample_world (build_config no_environ sample_utcnow) false
    = Ok (0%Z, [Written DEFAULT_OUTPUT_PATH doc])
    /\ field doc (lit "categories") = JList [category]
    /\ field category (lit "title") = JStr (lit "Mega Drive")
    /\ field category (lit "items") = JList [item]
    /\ field item (lit "title") = JStr (lit "Sonic (USA)")
    /\ field item (lit "type") = JStr (lit "genesis")
    /\ field (field item (lit "props")) (lit "rom") = JStr (lit "https://x/sonic.zip").
Proof. do 3 eexists. split; [vm_compute; reflexivity|]. repeat split. Qed.

(** A folder that is the empty string is no folder for [map_system_name],
    which goes on to the scan and finds nothing; the order of the spec's
    words looks the empty folder up and finds the key. *)
Example map_system_name_empty_folder :
  system_record system_empty_folder = true
  /\ spec_lookup_order system_empty_folder mapping_empty_key = JStr (lit "x")
  /\ map_system_name (JDict system_empty_folder) (JDict mapping_empty_key)
     = Ok JNull.
Proof. repeat split. Qed.

(** [$] of [ROM_EXT_RE] also holds before a newline that ends the text. *)
Example ROM_EXT_RE_before_newline :
  ROM_EXT_RE_sub (lit "a.zip" ++ [10%N]) = lit "a" ++ [10%N]
  /\ ROM_EXT_RE_sub (lit "a.zip.ZIP") = lit "a.zip"
  /\ ROM_EXT_RE_sub (lit "a.zipped") = lit "a.zipped".
Proof. repeat split. Qed.

(* ------------------------------------------------------------------ *)
(** ** The properties at sample inputs *)


(** C2 as stated fails: the table maps [a] to [x] and [A] to the empty
    string; for the name [A] the exact match of the name is the key [A],
    whose value is empty, yet the function returns [x], found by the scan. *)
Lemma map_system_name_empty_value :
  system_record system_A = true
  /\ spec_lookup_order system_A mapping_empty_A = JStr []
  /\ map_system_name (JDict system_A) (JDict mapping_empty_A) = Ok (JStr (lit "x")).
Proof. repeat split. Qed.

Lemma map_system_name_order_witness :
  system_record system_A = true
  /\ map_system_name (JDict system_A) (JDict mapping_empty_A)
     = Ok (lookup_order system_A mapping_empty_A).
Proof.
  split; [reflexivity|].
  apply (proj1 (map_system_name_order system_A mapping_empty_A eq_refl)).
Defined.


(** C4 as stated fails: the URL ends in [/], its last segment is empty, and
    the result is the empty string, not an absent value. *)
Lemma derive_title_trailing_slash :
  last_part (split (chr "/") (lit "https://x/y/")) = []
  /\ derive_title_from_url (JStr (lit "https://x/y/")) = Ok (JStr [])
  /\ derive_title_from_url (JStr (lit "https://x/y/")) <> Ok JNull.
Proof. repeat split. vm_compute. discriminate. Qed.

Lemma derive_title_from_url_witness :
  unquote (last_part (split (chr "/") (lit "https://x/y/game.v1.zip")))
  = lit "game.v1" ++ lit "." ++ lit "zip"
  /\ derive_title_from_url (JStr (lit "https://x/y/game.v1.zip"))
     = Ok (JStr (lit "game.v1")).
Proof.
  split; [vm_compute; reflexivity|].
  apply (proj1 (proj2 derive_title_from_url_spec)) with (ext := lit "zip");
    vm_compute; reflexivity.
Defined.

(** C5 as stated fails: nothing is configured, and the emitted feed still
    has [props.psx_bios], the built-in list. *)
Lemma psx_bios_default_emitted :
  no_environ (lit "PSX_BIOS_URLS") = None
  /\ exists doc,
       generate_feed sample_world (build_config no_environ sample_utcnow) true
       = Ok (0%Z, [Printed doc])
       /\ has_field (field doc (lit "props")) (lit "psx_bios") = true.
Proof. split; [reflexivity|]. eexists. split; vm_compute; reflexivity. Qed.

Lemma psx_bios_props_witness :
  let config := build_config psx_environ sample_utcnow in
  psx_bios_urls config
  = Some [lit "https://b/one.bin"; lit "https://b/two.bin"; lit "https://b/three.bin"]
  /\ get (feed_props_of config) (lit "psx_bios")
     = JList [JStr (lit "https://b/one.bin"); JStr (lit "https://b/two.bin");
              JStr (lit "https://b/three.bin")].
Proof.
  apply (proj1 psx_bios_props psx_environ sample_utcnow
               (lit "https://b/one.bin") (lit " https://b/two.bin ")
               (lit "https://b/three.bin"));
    try reflexivity; vm_compute; discriminate.
Defined.

Lemma generate_feed_requires_categories_witness :
  load_json unmapped_world (systems_file (build_config no_environ sample_utcnow))
  = Ok sample_systems
  /\ generate_feed unmapped_world (build_config no_environ sample_utcnow) false
     = Ok (1%Z, []).
Proof.
  split; [vm_compute; reflexivity|].
  apply (proj1 (generate_feed_requires_categories
                  unmapped_world (build_config no_environ sample_utcnow) false)
               sample_systems
               (JDict [(lit "Dreamcast", JStr (lit "dreamcast"))])
               (elements sample_systems));
    vm_compute; reflexivity.
Defined.

Lemma resolve_rom_url_cases_witness :
  resolve_rom_url [(lit "path", JStr (lit "//roms/r.zip"))] (Some (lit "https://cdn"))
  = Ok (JStr (lit "https://cdn/roms/r.zip")).
Proof.
  apply (proj1 (proj2 (resolve_rom_url_cases
                         [(lit "path", JStr (lit "//roms/r.zip"))]
                         (Some (lit "https://cdn"))))
               (lit "https://cdn") (lit "//roms/r.zip"));
    try reflexivity; discriminate.
Defined.

Lemma feed_item_types_witness :
  get mapping_empty_A (lit "A") = JStr []
  /\ map_system_name (JDict system_A) (JDict mapping_empty_A)
     = Ok (folder_then_scan system_A mapping_empty_A (lit "A")).
Proof.
  split; [reflexivity|].
  apply (proj1 (proj2 (proj2 feed_item_types)) system_A mapping_empty_A (lit "A"));
    try reflexivity. left. reflexivity.
Defined.

(** C10 as stated fails: the first of [img], [thumbnail], [image] that is
    present is [img], which is empty, and the item carries a [thumbnail]
    all the same, taken from the next field. *)
Lemma thumbnail_after_empty_img :
  first_present (normalize_game_entry game_empty_img) thumbnail_keys = Some (JStr [])
  /\ exists item,
       build_items (JList [game_empty_img]) (JStr (lit "gb")) None = Ok [item]
       /\ has_field item (lit "thumbnail") = true
       /\ field item (lit "thumbnail") = JStr (lit "t.png").
Proof. split; [reflexivity|]. eexists. repeat split. Qed.

Lemma build_items_artwork_witness :
  exists result,
    build_items_body (JStr (lit "gb")) None game_empty_img [] = Ok result
    /\ exists item,
         result = [JDict item]
         /\ has_key item (lit "thumbnail") = true
         /\ get item (lit "thumbnail") = JStr (lit "t.png")
         /\ has_key item (lit "background") = false.
Proof.
  eexists. split; [vm_compute; reflexivity|].
  destruct (build_items_artwork (JStr (lit "gb")) None game_empty_img []
              (result := [JDict (make_item (JStr (lit "gb"))
                                           (normalize_game_entry game_empty_img)
                                           (JStr (lit "Tetris"))
                                           (JStr (lit "https://x/tetris.gb")))])
              eq_refl)
    as [E | (item & E & T1 & T2 & B1 & _)]; [discriminate|].
  exists item. split; [exact E|].
  split; [rewrite T1; reflexivity|].
  split; [rewrite T2; reflexivity|].
  rewrite B1. reflexivity.
Defined.

(* ------------------------------------------------------------------ *)
(** ** Further properties: the configuration and the locator *)

Lemma lstrip_by_suffix : forall f s, exists r, s = r ++ lstrip_by f s.
Proof.
  induction s as [|c s [r IH]]; [now exists []|]. simpl.
  destruct (f c); [|now exists []].
  exists (c :: r). simpl. now rewrite <- IH.
Qed.

Lemma rstrip_by_prefix : forall f s, exists r, s = rstrip_by f s ++ r.
Proof.
  intros f s. unfold rstrip_by. destruct (lstrip_by_suffix f (rev s)) as [r E].
  exists (rev r). rewrite <- rev_app_distr, <- E. now rewrite rev_involutive.
Qed.

Lemma rstrip_by_idem : forall f s, rstrip_by f (rstrip_by f s) = rstrip_by f s.
Proof.
  intros f s. unfold rstrip_by. now rewrite rev_involutive, lstrip_by_idem.
Qed.

Lemma strip_idem : forall s, strip (strip s) = strip s.
Proof.
  intro s. unfold strip at 1.
  assert (E : lstrip_by is_space (strip s) = strip s).
  { unfold strip. destruct (rstrip_by is_space (lstrip_by is_space s))
      as [|c x] eqn:Er; [reflexivity|].
    apply lstrip_by_keep.
    destruct (rstrip_by_prefix is_space (lstrip_by is_space s)) as [r E].
    rewrite Er in E. simpl in E. now apply lstrip_by_head in E. }
  rewrite E. unfold strip. apply rstrip_by_idem.
Qed.

Lemma rstrip_by_no_trailing : forall c s, no_trailing c (rstrip_char c s).
Proof.
  intros c s a E. unfold rstrip_char in E. apply rstrip_by_last in E.
  now rewrite N.eqb_refl in E.
Qed.

Lemma lstrip_by_no_leading : forall c s, no_leading c (lstrip_char c s).
Proof.
  intros c s b E. unfold lstrip_char in E. apply lstrip_by_head in E.
  now rewrite N.eqb_refl in E.
Qed.

Lemma free_of_lstrip : forall c f s,
  free_of c s = true -> free_of c (lstrip_by f s) = true.
Proof.
  intros c f s H. destruct (lstrip_by_suffix f s) as [r E].
  rewrite E, free_of_app in H. now apply andb_true_iff in H as [_ H].
Qed.

Lemma free_of_rev : forall c s, free_of c (rev s) = free_of c s.
Proof.
  intros c s. unfold free_of. induction s as [|x s IH]; [reflexivity|].
  simpl. rewrite forallb_app, IH. simpl. rewrite andb_true_r. apply andb_comm.
Qed.

Lemma free_of_strip : forall c s, free_of c s = true -> free_of c (strip s) = true.
Proof.
  intros c s H. unfold strip, rstrip_by.
  rewrite free_of_rev. apply free_of_lstrip. rewrite free_of_rev.
  now apply free_of_lstrip.
Qed.

Lemma split_parts_free : forall sep s, Forall (fun part => free_of sep part = true)
                                              (split sep s).
Proof.
  induction s as [|c s IH]; simpl; [repeat constructor|].
  destruct (N.eqb c sep) eqn:E; [now constructor|].
  destruct (split sep s) as [|h t]; [repeat constructor; simpl; now rewrite E|].
  inversion IH; subst. constructor; [|assumption]. simpl. now rewrite E.
Qed.

Section Configuration.
Context {env : PyEnv}.

Lemma rom_prefix_url_env : forall environ utcnow,
  rom_prefix_url (build_config environ utcnow)
  = match environ (lit "ROM_PREFIX_URL") with
    | Some p => if negb (is_empty p) then Some (rstrip_char (chr "/") p) else None
    | None => None
    end.
Proof. reflexivity. Qed.

(** X1.  The [rom_prefix_url] of the configuration never ends in a slash:
    it is the value of [ROM_PREFIX_URL] with every trailing slash removed,
    and it is absent exactly when the variable is not set or is empty. *)
Theorem build_config_rom_prefix : forall environ utcnow,
  match rom_prefix_url (build_config environ utcnow) with
  | Some prefix =>
      no_trailing (chr "/") prefix
      /\ exists raw,
           environ (lit "ROM_PREFIX_URL") = Some raw /\ raw <> []
           /\ prefix = rstrip_char (chr "/") raw
  | None =>
      environ (lit "ROM_PREFIX_URL") = None
      \/ environ (lit "ROM_PREFIX_URL") = Some []
  end.
Proof.
  intros environ utcnow. rewrite rom_prefix_url_env.
  destruct (environ (lit "ROM_PREFIX_URL")) as [[|c raw]|]; simpl; auto.
  split; [apply rstrip_by_no_trailing|].
  exists (c :: raw). repeat split. discriminate.
Qed.

(** X2.  Whatever [PSX_BIOS_URLS] holds, every URL of the list
    [build_config] makes of it is not empty, carries no surrounding white
    space and no comma. *)
Theorem build_config_psx_urls_clean : forall environ utcnow urls,
  psx_bios_urls (build_config environ utcnow) = Some urls ->
  Forall (fun url => url <> [] /\ strip url = url /\ free_of (chr ",") url = true)
         urls.
Proof.
  intros environ utcnow urls H. rewrite psx_bios_urls_env in H. cbv zeta in H.
  destruct (negb (is_empty _)); [|discriminate]. inversion H; subst. clear H.
  apply Forall_forall. intros url Hin.
  apply filter_In in Hin as [Hin Hne]. apply in_map_iff in Hin as [part [E Hp]].
  subst url. split; [|split].
  - intro E. now rewrite E in Hne.
  - apply strip_idem.
  - apply free_of_strip.
    pose proof (split_parts_free (chr ",")
                  (environ_get environ (lit "PSX_BIOS_URLS") DEFAULT_PSX_BIOS_URLS))
      as Hall.
    rewrite Forall_forall in Hall. now apply Hall.
Qed.

(** [resolve_rom_url] in terms of the first non-empty fields. *)
Lemma resolve_rom_url_eq : forall game rom_prefix,
  resolve_rom_url game rom_prefix
  = (let url := first_truthy game locator_keys in
     let candidate := first_truthy game path_keys in
     if truthy url then Ok url
     else if configured_url rom_prefix && truthy candidate then
       stripped <- str_lstrip_slash candidate ;;
       Ok (JStr (match rom_prefix with Some p => p | None => [] end
                 ++ lit "/" ++ stripped))
     else Ok JNull).
Proof.
  intros game rom_prefix. cbv zeta.
  destruct (py_or_first_truthy3 game (lit "url") (lit "rom") (lit "href"))
    as [Hu Hu'].
  destruct (py_or_first_truthy2 game (lit "path") (lit "rom_path"))
    as [Hc Hc'].
  fold locator_keys in Hu, Hu'. fold path_keys in Hc, Hc'.
  unfold resolve_rom_url. rewrite Hu.
  destruct (truthy (first_truthy game locator_keys)) eqn:Tu;
    [now rewrite Hu'|].
  destruct rom_prefix as [[|c prefix]|];
    cbn [configured_url is_empty negb andb]; try reflexivity.
  rewrite Hc. destruct (truthy (first_truthy game path_keys)) eqn:Tc;
    [rewrite Hc' by reflexivity; reflexivity | reflexivity].
Qed.

(** X3.  A relative path is joined to the configured prefix by exactly one
    slash: with [ROM_PREFIX_URL] set, a game without explicit locator whose
    path is [p] resolves to the prefix without its trailing slashes, a
    slash, and [p] without its leading slashes; a prefix made of slashes
    only resolves nothing. *)
Theorem resolve_with_environment_prefix : forall environ utcnow raw game p,
  environ (lit "ROM_PREFIX_URL") = Some raw ->
  truthy (first_truthy game locator_keys) = false ->
  first_truthy game path_keys = JStr p -> p <> [] ->
  let prefix := rstrip_char (chr "/") raw in
  let rest := lstrip_char (chr "/") p in
  resolve_rom_url game (rom_prefix_url (build_config environ utcnow))
  = (if is_empty prefix then Ok JNull
     else Ok (JStr (prefix ++ lit "/" ++ rest)))
  /\ no_trailing (chr "/") prefix
  /\ no_leading (chr "/") rest.
Proof.
  intros environ utcnow raw game p He Hu Hc Hp prefix rest.
  split; [|split; [apply rstrip_by_no_trailing | apply lstrip_by_no_leading]].
  rewrite rom_prefix_url_env, He, resolve_rom_url_eq. cbv zeta.
  rewrite Hu, Hc.
  destruct raw as [|c raw]; simpl negb; cbv iota; [reflexivity|].
  fold prefix. destruct p as [|y p]; [contradiction|].
  destruct prefix as [|x prefix']; reflexivity.
Qed.

End Configuration.

(** X4.  What [resolve_rom_url] returns is absent or not empty, never an
    empty value; it raises, and then an [AttributeError], exactly when no
    explicit locator is set, a prefix is configured, and the first
    non-empty of [path], [rom_path] is not a string. *)
Theorem resolve_rom_url_outcome : forall game rom_prefix,
  (forall v, resolve_rom_url game rom_prefix = Ok v -> v = JNull \/ truthy v = true)
  /\ (forall e,
        resolve_rom_url game rom_prefix = Raise e <->
        e = AttributeError
        /\ truthy (first_truthy game locator_keys) = false
        /\ configured_url rom_prefix = true
        /\ truthy (first_truthy game path_keys) = true
        /\ is_str (first_truthy game path_keys) = false).
Proof.
  intros game rom_prefix. rewrite resolve_rom_url_eq. cbv zeta.
  destruct (truthy (first_truthy game locator_keys)) eqn:Tu.
  { split; [intros v H; inversion H; subst; now right|].
    intro e. split; [discriminate | intros (_ & F & _); discriminate]. }
  destruct (configured_url rom_prefix) eqn:Tp; cbn [andb].
  2:{ split; [intros v H; inversion H; now left|].
      intro e. split; [discriminate | intros (_ & _ & F & _); discriminate]. }
  destruct (truthy (first_truthy game path_keys)) eqn:Tc.
  2:{ split; [intros v H; inversion H; now left|].
      intro e. split; [discriminate | intros (_ & _ & _ & F & _); discriminate]. }
  destruct rom_prefix as [[|x prefix]|]; try discriminate.
  destruct (first_truthy game path_keys); cbn [str_lstrip_slash bind is_str].
  all: split; [intros v H; inversion H; subst; now right|].
  all: intro e; split;
    [ intro H; inversion H; subst; auto 10
    | intros (-> & _ & _ & _ & F); try discriminate; reflexivity ].
Qed.

(* ------------------------------------------------------------------ *)
(** ** Further properties: titles *)

Lemma clean_title_of_falsy_or_str : forall raw_title rom_url,
  truthy raw_title = false \/ is_str raw_title = true ->
  exists raw, clean_title raw_title rom_url = clean_title (JStr raw) rom_url.
Proof.
  intros raw_title rom_url [F | S].
  - exists []. unfold clean_title, py_or. now rewrite F.
  - destruct raw_title; try discriminate. now eexists.
Qed.

Lemma clean_title_inv : forall raw_title rom_url v,
  clean_title raw_title rom_url = Ok v -> exists x, v = str_or_none (strip x).
Proof.
  intros raw_title rom_url v H. unfold clean_title in H.
  destruct (py_or raw_title (JStr [])) as [ | | | | s | | ];
    cbn [str_strip bind] in H; try discriminate.
  cbv zeta in H.
  match type of H with
  | context [if ?b && truthy rom_url then _ else _] =>
      destruct (b && truthy rom_url)
  end.
  - destruct (derive_title_from_url rom_url) as [derived|];
      cbn [bind] in H; [|discriminate].
    inversion H. now eexists.
  - cbn [bind] in H. inversion H.
    destruct (negb (is_empty (strip s))); now eexists.
Qed.

(** X5.  Whatever it is given, a title [clean_title] returns is absent or
    a string that is not empty and has no white space at either end. *)
Theorem clean_title_result : forall raw_title rom_url v,
  clean_title raw_title rom_url = Ok v ->
  v = JNull \/ exists title, v = JStr title /\ title <> [] /\ strip title = title.
Proof.
  intros raw_title rom_url v H. apply clean_title_inv in H as [x ->].
  pose proof (strip_idem x) as Hi.
  unfold str_or_none. destruct (strip x) as [|c t]; [now left|].
  right. exists (c :: t). repeat split; [discriminate | exact Hi].
Qed.

Lemma derive_title_raises : forall url e,
  derive_title_from_url url = Raise e ->
  e = AttributeError /\ truthy url = true /\ is_str url = false.
Proof.
  intros url e H. unfold derive_title_from_url in H.
  destruct (truthy url) eqn:T; cbn [negb] in H; [|discriminate].
  destruct url; inversion H; auto.
Qed.

(** X6.  [clean_title] raises only [AttributeError]: it does when the raw
    title is a non-empty value that is not a string, and it returns without
    error whenever the raw title and the locator are each a string or an
    empty value. *)
Theorem clean_title_errors : forall raw_title rom_url,
  (truthy raw_title = true -> is_str raw_title = false ->
   clean_title raw_title rom_url = Raise AttributeError)
  /\ (truthy raw_title = false \/ is_str raw_title = true ->
      truthy rom_url = false \/ is_str rom_url = true ->
      exists v, clean_title raw_title rom_url = Ok v)
  /\ (forall e, clean_title raw_title rom_url = Raise e -> e = AttributeError).
Proof.
  intros raw_title rom_url. split; [|split].
  - intros T S. unfold clean_title, py_or. rewrite T.
    destruct raw_title; try discriminate; reflexivity.
  - intros Hr Hu.
    destruct (clean_title_of_falsy_or_str raw_title rom_url Hr) as [raw ->].
    rewrite clean_title_str. cbv zeta.
    match goal with
    | |- context [if is_empty ?c && truthy rom_url then _ else _] =>
        destruct (is_empty c)
    end; cbn [andb]; [|now eexists].
    destruct (truthy rom_url) eqn:T; [|now eexists].
    destruct Hu as [F | S]; [congruence|].
    destruct (derive_title_from_url rom_url) as [d|e] eqn:Ed; [now eexists|].
    apply derive_title_raises in Ed as (_ & _ & F). congruence.
  - intros e H. unfold clean_title in H.
    destruct (py_or raw_title (JStr [])) as [ | | | | s | | ];
      cbn [str_strip bind] in H; try (now inversion H).
    cbv zeta in H.
    match type of H with
    | context [if ?b && truthy rom_url then _ else _] =>
        destruct (b && truthy rom_url)
    end; cbn [bind] in H; [|discriminate].
    destruct (derive_title_from_url rom_url) as [d|e'] eqn:Ed;
      cbn [bind] in H; [discriminate|].
    inversion H; subst. now apply derive_title_raises in Ed as (-> & _).
Qed.

Lemma is_rom_ext_length : forall e,
  is_rom_ext e = true -> (2 <= List.length e <= 3)%nat.
Proof.
  intros e H. unfold is_rom_ext in H. apply existsb_exists in H as [pat [Hin Hm]].
  assert (Hall : forallb (fun x => forallb pattern_char x
                                   && ((2 <=? List.length x) && (List.length x <=? 3))%nat)
                         ROM_EXTS = true) by (vm_compute; reflexivity).
  rewrite forallb_forall in Hall. specialize (Hall pat Hin).
  apply andb_true_iff in Hall as [Hp Hl]. apply andb_true_iff in Hl as [H2 H3].
  apply Nat.leb_le in H2, H3.
  destruct (imatch_ext_chars _ _ Hp Hm) as [_ El]. lia.
Qed.

(** X7.  [ROM_EXT_RE.sub] removes at most one extension: the text is left
    as it is, or it is [p.e] (possibly followed by one final newline) with
    [e] a recognized extension of two or three characters, and only the dot
    and [e] are removed. *)
Theorem ROM_EXT_RE_sub_cases : forall s,
  ROM_EXT_RE_sub s = s
  \/ exists p e r,
       is_rom_ext e = true /\ (2 <= List.length e <= 3)%nat
       /\ (r = [] \/ r = [10%N])
       /\ s = p ++ lit "." ++ e ++ r
       /\ ROM_EXT_RE_sub s = p ++ r.
Proof.
  induction s as [|c s IH]; [now left|].
  rewrite ROM_EXT_RE_sub_cons.
  destruct (match_here (c :: s)) as [r|] eqn:Hm.
  - right. apply match_here_inv in Hm as (e & He & Es & Hr).
    exists [], e, r. repeat split; auto; now apply is_rom_ext_length.
  - destruct IH as [-> | (p & e & r & He & Hl & Hr & Es & Esub)]; [now left|].
    right. exists (c :: p), e, r. rewrite Esub, Es. repeat split; auto; lia.
Qed.

Lemma split_last_app : forall sep a b,
  exists h t,
    split sep (a ++ sep :: b) = h :: t /\ t <> []
    /\ last t [] = last_part (split sep b).
Proof.
  intros sep a b. induction a as [|c a (h & t & E & Ht & El)].
  - exists [], (split sep b). simpl. rewrite N.eqb_refl.
    repeat split. destruct b as [|x b]; simpl; [discriminate|].
    destruct (N.eqb x sep); [discriminate|].
    destruct (split sep b); discriminate.
  - simpl. destruct (N.eqb c sep).
    + exists [], (h :: t). rewrite E. repeat split; [discriminate|].
      destruct t; [contradiction | exact El].
    + rewrite E. exists (c :: h), t. now repeat split.
Qed.

Lemma last_part_split_app : forall sep a b,
  last_part (split sep (a ++ sep :: b)) = last_part (split sep b).
Proof.
  intros sep a b. destruct (split_last_app sep a b) as (h & t & E & Ht & El).
  unfold last_part at 1. rewrite E. destruct t; [contradiction | exact El].
Qed.

(** X8.  Only the text after the last slash of a URL counts for the derived
    title: with no slash in [b], the title of [a/b] is what the decoded [b]
    gives, whatever [a] is. *)
Theorem derive_title_last_segment : forall a b,
  free_of (chr "/") b = true ->
  derive_title_from_url (JStr (a ++ lit "/" ++ b))
  = Ok (JStr (if is_empty (fst (splitext (unquote b))) then unquote b
              else fst (splitext (unquote b)))).
Proof.
  intros a b Hb.
  assert (E : exists c u, a ++ lit "/" ++ b = c :: u)
    by (destruct a; simpl; eauto).
  destruct E as (c & u & E). rewrite E, derive_title_of_str. cbv zeta.
  rewrite <- E. change (a ++ lit "/" ++ b) with (a ++ chr "/" :: b).
  rewrite last_part_split_app, (split_free _ _ Hb). reflexivity.
Qed.

(* ------------------------------------------------------------------ *)
(** ** Further properties: the items *)

Lemma clean_title_no_locator : forall s, exists v, clean_title (JStr s) JNull = Ok v.
Proof.
  intro s. rewrite clean_title_str. cbv zeta. cbn [truthy].
  rewrite andb_false_r. now eexists.
Qed.

Lemma title_only_body : forall system_type rom_prefix entry items,
  title_only entry = true ->
  build_items_body system_type rom_prefix entry items = Ok items.
Proof.
  intros system_type rom_prefix entry items H.
  assert (E : normalize_game_entry entry = []
              \/ exists s, normalize_game_entry entry = [(lit "title", JStr s)]).
  { destruct entry as [ | | | | s | [|[ | | | | s | | ] [|u l]] | ];
      try discriminate; try (now left); right; exists s; reflexivity. }
  unfold build_items_body. cbv zeta.
  destruct E as [-> | [s ->]].
  - destruct rom_prefix as [[|c p]|]; reflexivity.
  - assert (Er : resolve_rom_url [(lit "title", JStr s)] rom_prefix = Ok JNull)
      by (destruct rom_prefix as [[|c p]|]; reflexivity).
    rewrite Er. cbn [bind].
    change (py_or (get [(lit "title", JStr s)] (lit "title"))
                  (get [(lit "title", JStr s)] (lit "name")))
      with (py_or (JStr s) JNull).
    assert (Ep : exists s', clean_title (py_or (JStr s) JNull) JNull
                            = clean_title (JStr s') JNull).
    { destruct s; [exists [] | eexists]; reflexivity. }
    destruct Ep as [s' ->].
    destruct (clean_title_no_locator s') as [v ->]. cbn [bind truthy negb].
    now rewrite orb_true_r.
Qed.

Lemma for_each_neutral : forall (A S : Type) (body : A -> S -> pyres S) l s,
  (forall x, In x l -> body x s = Ok s) -> for_each body l s = Ok s.
Proof.
  induction l as [|x l IH]; intros s H; [reflexivity|]. simpl.
  rewrite (H x) by now left. simpl. apply IH. intros y Hy. apply H. now right.
Qed.

(** X10.  A games file that is not a sequence: a JSON object or a string
    is iterated by keys or by characters, bare strings all, and gives no
    item; a number or a boolean cannot be iterated and raises [TypeError]. *)
Theorem build_items_of_other_values : forall system_type rom_prefix,
  (forall d, build_items (JDict d) system_type rom_prefix = Ok [])
  /\ (forall s, build_items (JStr s) system_type rom_prefix = Ok [])
  /\ (forall v,
        match v with
        | JNull | JBool _ | JInt _ | JFloat _ =>
            build_items v system_type rom_prefix = Raise TypeError
        | _ => True
        end).
Proof.
  intros system_type rom_prefix. split; [|split].
  - intro d. unfold build_items. cbn [py_iter bind].
    apply for_each_neutral. intros x Hx. apply in_map_iff in Hx as [kv [<- _]].
    now apply title_only_body.
  - intro s. unfold build_items. cbn [py_iter bind].
    apply for_each_neutral. intros x Hx. apply in_map_iff in Hx as [c [<- _]].
    now apply title_only_body.
  - intros []; exact I || reflexivity.
Qed.

Lemma for_each_app : forall (A S : Type) (body : A -> S -> pyres S) a b s,
  for_each body (a ++ b) s = (s' <- for_each body a s ;; for_each body b s').
Proof.
  induction a as [|x a IH]; intros b s; [reflexivity|]. simpl.
  destruct (body x s) as [s1|]; simpl; [apply IH | reflexivity].
Qed.

(** A loop whose body only appends can be run from the empty list. *)
Lemma for_each_appending : forall (A B : Type) (body : A -> list B -> pyres (list B)),
  (forall x acc, body x acc = (r <- body x [] ;; Ok (acc ++ r))) ->
  forall l acc, for_each body l acc = (r <- for_each body l [] ;; Ok (acc ++ r)).
Proof.
  intros A B body Hb. induction l as [|x l IH]; intro acc; simpl.
  - now rewrite app_nil_r.
  - rewrite (Hb x acc). destruct (body x []) as [r0|]; simpl; [|reflexivity].
    rewrite (IH (acc ++ r0)), (IH r0).
    destruct (for_each body l []) as [r|]; simpl; [|reflexivity].
    now rewrite app_assoc.
Qed.

Lemma build_items_body_appends : forall system_type rom_prefix entry acc,
  build_items_body system_type rom_prefix entry acc
  = (r <- build_items_body system_type rom_prefix entry [] ;; Ok (acc ++ r)).
Proof.
  intros system_type rom_prefix entry acc. unfold build_items_body. cbv zeta.
  destruct (resolve_rom_url _ _) as [rom_url|]; cbn [bind]; [|reflexivity].
  destruct (clean_title _ _) as [title|]; cbn [bind]; [|reflexivity].
  destruct (negb (truthy title) || negb (truthy rom_url)); cbn [bind app];
    [now rewrite app_nil_r | reflexivity].
Qed.

(** X11.  [build_items] works entry by entry: the items of two lists of
    entries put end to end are the items of the first followed by the items
    of the second, and an error in either is the error of the whole. *)
Theorem build_items_app : forall a b system_type rom_prefix,
  build_items (JList (a ++ b)) system_type rom_prefix
  = (xs <- build_items (JList a) system_type rom_prefix ;;
     ys <- build_items (JList b) system_type rom_prefix ;;
     Ok (xs ++ ys)).
Proof.
  intros a b system_type rom_prefix. unfold build_items. cbn [py_iter bind].
  rewrite for_each_app.
  destruct (for_each _ a []) as [xs|]; cbn [bind]; [|reflexivity].
  apply for_each_appending. apply build_items_body_appends.
Qed.

(** X9.  An entry that names no locator is dropped without an error: a bare
    title string, a sequence holding one string, the empty sequence, a
    number, a boolean or [null] anywhere among the entries changes nothing
    of what [build_items] returns. *)
Theorem title_only_entries_dropped : forall a entry b system_type rom_prefix,
  title_only entry = true ->
  build_items (JList (a ++ entry :: b)) system_type rom_prefix
  = build_items (JList (a ++ b)) system_type rom_prefix.
Proof.
  intros a entry b system_type rom_prefix H. unfold build_items.
  cbn [py_iter bind]. rewrite !for_each_app.
  destruct (for_each _ a []) as [xs|]; cbn [bind for_each]; [|reflexivity].
  now rewrite title_only_body.
Qed.

Lemma build_items_body_cases : forall system_type rom_prefix entry items result,
  build_items_body system_type rom_prefix entry items = Ok result ->
  result = items
  \/ exists title rom_url,
       cleaned_title title
       /\ truthy rom_url = true
       /\ result = items ++ [JDict (make_item system_type (normalize_game_entry entry)
                                              (JStr title) rom_url)].
Proof.
  intros system_type rom_prefix entry items result H.
  unfold build_items_body in H. cbv zeta in H.
  destruct (resolve_rom_url _ _) as [rom_url|]; cbn [bind] in H; [|discriminate].
  destruct (clean_title _ _) as [title|] eqn:Et; cbn [bind] in H; [|discriminate].
  destruct (truthy title) eqn:Tt; cbn [negb orb] in H; [|left; now inversion H].
  destruct (truthy rom_url) eqn:Tr; cbn [negb] in H; [|left; now inversion H].
  right. apply clean_title_inv in Et as [x ->].
  unfold str_or_none in *. pose proof (strip_idem x) as Hi.
  destruct (strip x) as [|c t]; [discriminate|].
  exists (c :: t), rom_url. inversion H.
  split; [split; [discriminate | exact Hi] | split; [exact Tr | reflexivity]].
Qed.

Lemma make_item_shape : forall system_type game title rom_url,
  cleaned_title title -> truthy rom_url = true ->
  item_shape system_type (JDict (make_item system_type game (JStr title) rom_url)).
Proof.
  intros system_type game title rom_url Ht Hr. unfold make_item. cbv zeta.
  destruct (truthy (extract_thumbnail game)) eqn:Et,
           (truthy (extract_background game)) eqn:Eb;
    [ exists title, rom_url, [(lit "thumbnail", extract_thumbnail game);
                              (lit "background", extract_background game)]
    | exists title, rom_url, [(lit "thumbnail", extract_thumbnail game)]
    | exists title, rom_url, [(lit "background", extract_background game)]
    | exists title, rom_url, [] ];
    (split; [reflexivity|]); (split; [exact Ht|]); (split; [exact Hr|]);
    (split; [cbn [map fst]; auto using subseq_nil, subseq_skip, subseq_keep
            | auto using Forall_cons, Forall_nil]).
Qed.

Lemma build_items_loop_length : forall system_type rom_prefix entries acc result,
  for_each (build_items_body system_type rom_prefix) entries acc = Ok result ->
  (List.length result <= List.length acc + List.length entries)%nat.
Proof.
  intros system_type rom_prefix.
  induction entries as [|entry entries IH]; intros acc result H; simpl in H.
  - inversion H. lia.
  - destruct (build_items_body _ _ entry acc) as [acc'|] eqn:E; simpl in H;
      [|discriminate].
    apply IH in H.
    apply build_items_body_inv in E as [-> | (title & rom_url & ->)];
      [simpl; lia|].
    rewrite length_app in H. simpl in *. lia.
Qed.

(** X12.  Every item [build_items] returns has the same shape: the keys
    [title], [type], [props] in this order, the title a string that is not
    empty and carries no surrounding white space, the type the one given,
    [props] holding the locator under [rom] and nothing else, the locator
    not empty; then [thumbnail] and [background], each only when its value
    is not empty.  There are never more items than entries. *)
Theorem build_items_item_shape : forall games system_type rom_prefix items,
  build_items games system_type rom_prefix = Ok items ->
  Forall (item_shape system_type) items
  /\ (forall entries, py_iter games = Ok entries ->
       (List.length items <= List.length entries)%nat).
Proof.
  intros games system_type rom_prefix items H. unfold build_items in H.
  destruct (py_iter games) as [entries|]; cbn [bind] in H; [|discriminate].
  split.
  - revert H. apply for_each_invariant; [|apply Forall_nil].
    intros entry acc acc' Hacc Hbody.
    apply build_items_body_cases in Hbody
      as [-> | (title & rom_url & Ht & Hr & ->)]; [exact Hacc|].
    apply Forall_app. split; [exact Hacc|].
    apply Forall_cons; [|apply Forall_nil]. now apply make_item_shape.
  - intros entries' E. inversion E; subst.
    apply build_items_loop_length in H. simpl in H. exact H.
Qed.

Lemma build_items_body_positional : forall system_type rom_prefix l items,
  build_items_body system_type rom_prefix (JList l) items
  = build_items_body system_type None
      (JDict [(lit "title", nth 0 l JNull); (lit "url", nth 1 l JNull)]) items.
Proof.
  intros system_type rom_prefix l items.
  unfold build_items_body, resolve_rom_url, make_item, extract_thumbnail,
    extract_background. cbv zeta.
  destruct l as [|t [|u [|s r]]];
    repeat match goal with
           | |- context [get ?d (lit ?k)] =>
               let v := eval cbv in (get d (lit k)) in
               change (get d (lit k)) with v
           end;
    unfold py_or; cbn [truthy nth];
    try (destruct (truthy u) eqn:Tu; rewrite ?Tu);
    destruct rom_prefix as [[|c p]|]; reflexivity.
Qed.

(** X13.  A positional entry is read as a title and a locator and nothing
    more: anywhere among the entries it can be replaced by the record with
    its first element as [title] and its second as [url], whatever it holds
    from the third position on; and the configured prefix has no effect on
    it. *)
Theorem build_items_positional : forall system_type rom_prefix l a b,
  build_items (JList (a ++ JList l :: b)) system_type rom_prefix
  = build_items
      (JList (a ++ JDict [(lit "title", nth 0 l JNull); (lit "url", nth 1 l JNull)]
                :: b))
      system_type rom_prefix
  /\ build_items (JList [JList l]) system_type rom_prefix
     = build_items (JList [JList l]) system_type None.
Proof.
  intros system_type rom_prefix l a b.
  assert (E : forall items,
             build_items_body system_type rom_prefix (JList l) items
             = build_items_body system_type rom_prefix
                 (JDict [(lit "title", nth 0 l JNull); (lit "url", nth 1 l JNull)])
                 items).
  { intro items. rewrite build_items_body_positional.
    change (build_items_body system_type rom_prefix
              (JDict [(lit "title", nth 0 l JNull); (lit "url", nth 1 l JNull)])
              items)
      with (build_items_body system_type rom_prefix
              (JList [nth 0 l JNull; nth 1 l JNull]) items).
    now rewrite (build_items_body_positional _ rom_prefix). }
  split.
  - unfold build_items. cbn [py_iter bind]. rewrite !for_each_app.
    destruct (for_each _ a []) as [xs|]; cbn [bind for_each]; [|reflexivity].
    now rewrite E.
  - unfold build_items. cbn [py_iter bind for_each].
    rewrite (build_items_body_positional _ rom_prefix).
    now rewrite (build_items_body_positional _ None l).
Qed.

(* ------------------------------------------------------------------ *)
(** ** Further properties: the systems *)

Lemma get_in : forall d k, truthy (get d k) = true -> In (k, get d k) d.
Proof.
  induction d as [|[k' v] d IH]; intros k H; simpl in *; [discriminate|].
  destruct (str_eqb k' k) eqn:E.
  - apply str_eqb_eq in E. subst k'. now left.
  - right. now apply IH.
Qed.

Lemma get_key_in : forall m key v,
  get_key m key = Ok v -> truthy v = true ->
  exists k, key = JStr k /\ In (k, v) m.
Proof.
  intros m key v H T.
  destruct key; simpl in H; inversion H; subst; try discriminate.
  eexists. split; [reflexivity | now apply get_in].
Qed.

Section Systems.
Context {env : PyEnv}.

Lemma scan_items_in : forall lowered m,
  scan_items lowered m = JNull
  \/ exists k, In (k, scan_items lowered m) m /\ lower k = lowered.
Proof.
  intros lowered. induction m as [|[k v] m IH]; simpl; [now left|].
  destruct (str_eqb (lower k) lowered) eqn:E.
  - right. exists k. split; [now left | now apply str_eqb_eq].
  - destruct IH as [-> | (k' & H1 & H2)]; [now left|].
    right. exists k'. auto.
Qed.

Lemma scan_mapping_in : forall name m v,
  scan_mapping name (JDict m) = Ok v ->
  v = JNull
  \/ exists n k, name = JStr n /\ In (k, v) m /\ lower k = lower n.
Proof.
  intros name m v H. unfold scan_mapping in H.
  destruct name as [ | | | | n | | ]; simpl in H; try discriminate.
  inversion H; subst.
  destruct (scan_items_in (lower n) m) as [-> | (k & H1 & H2)]; [now left|].
  right. exists n, k. auto.
Qed.

(** X14.  The type [map_system_name] gives a system is never made up: it is
    absent, or it is a value of the mapping table, stored under a key that
    is the name of the system or lower-cases to its lower-cased name, or is
    its folder or its lower-cased folder. *)
Theorem map_system_name_from_table : forall system mapping v,
  map_system_name system mapping = Ok v ->
  v = JNull
  \/ exists sys m k,
       system = JDict sys /\ mapping = JDict m
       /\ In (k, v) m /\ key_matches sys k.
Proof.
  intros system mapping v H. unfold map_system_name in H.
  destruct system as [ | | | | | | sys]; try discriminate.
  cbn [get_method bind] in H.
  destruct (py_or_first_truthy2 sys (lit "name") (lit "platform_name"))
    as [Hn Hn'].
  set (name := py_or (get sys (lit "name")) (get sys (lit "platform_name"))) in *.
  destruct (truthy name) eqn:Tn; cbn [negb] in H; [|left; now inversion H].
  symmetry in Hn. specialize (Hn' Hn).
  unfold py_get in H.
  destruct mapping as [ | | | | | | m]; try discriminate.
  cbn [get_method bind] in H.
  assert (Hscan : forall v, scan_mapping name (JDict m) = Ok v ->
            v = JNull
            \/ exists sys0 m0 k,
                 JDict sys = JDict sys0 /\ JDict m = JDict m0
                 /\ In (k, v) m0 /\ key_matches sys0 k).
  { intros v0 H0. apply scan_mapping_in in H0 as [-> | (n & k & En & Hin & Hl)];
      [now left|].
    right. exists sys, m, k. repeat split; auto.
    left. exists n. split; [congruence | now right]. }
  destruct (get_key m name) as [mapped|] eqn:E1; cbn [bind] in H; [|discriminate].
  destruct (truthy mapped) eqn:T1.
  { inversion H; subst. right.
    destruct (get_key_in _ _ E1 T1) as (k & Ek & Hin).
    exists sys, m, k. repeat split; auto.
    left. exists k. split; [congruence | now left]. }
  destruct (truthy (get sys (lit "folder"))) eqn:Tf; [|now apply Hscan].
  destruct (get_key m (get sys (lit "folder"))) as [exact|] eqn:E2;
    cbn [bind] in H; [|discriminate].
  destruct (truthy exact) eqn:T2; cbn [bind] in H.
  { rewrite T2 in H. inversion H; subst. right.
    destruct (get_key_in _ _ E2 T2) as (k & Ek & Hin).
    exists sys, m, k. repeat split; auto.
    right. exists k. split; [exact Ek | now left]. }
  destruct (get sys (lit "folder")) as [ | | | | folder | | ] eqn:Ef;
    cbn [str_lower bind] in H; try discriminate.
  cbn [get_method get_key bind] in H.
  destruct (truthy (get m (lower folder))) eqn:T3; [|now apply Hscan].
  inversion H; subst. right.
  exists sys, m, (lower folder). repeat split; auto.
  - now apply get_in.
  - right. exists folder. split; [exact Ef | now right].
Qed.

(** X15.  What stops [map_system_name]: a system that is not a record
    raises [AttributeError]; a record without a usable name gives no type,
    whatever the mapping is; a record with a usable name raises
    [AttributeError] when the mapping is not a table. *)
Theorem map_system_name_malformed : forall system mapping,
  (is_dict system = false ->
   map_system_name system mapping = Raise AttributeError)
  /\ (forall sys,
        system = JDict sys ->
        truthy (first_truthy sys [lit "name"; lit "platform_name"]) = false ->
        map_system_name system mapping = Ok JNull)
  /\ (forall sys,
        system = JDict sys ->
        truthy (first_truthy sys [lit "name"; lit "platform_name"]) = true ->
        is_dict mapping = false ->
        map_system_name system mapping = Raise AttributeError).
Proof.
  intros system mapping. split; [|split].
  - intro H. destruct system; try discriminate; reflexivity.
  - intros sys -> H. unfold map_system_name. cbn [get_method bind].
    destruct (py_or_first_truthy2 sys (lit "name") (lit "platform_name"))
      as [Hn _].
    rewrite Hn, H. reflexivity.
  - intros sys -> H Hm. unfold map_system_name. cbn [get_method bind].
    destruct (py_or_first_truthy2 sys (lit "name") (lit "platform_name"))
      as [Hn _].
    rewrite Hn, H. cbn [negb]. unfold py_get.
    destruct mapping; try discriminate; reflexivity.
Qed.

End Systems.

(* ------------------------------------------------------------------ *)
(** ** Further properties: the feed *)

Lemma for_each_raises : forall (A S : Type) (body : A -> S -> pyres S) x l,
  (forall s, exists e, body x s = Raise e) -> In x l ->
  forall s, exists e, for_each body l s = Raise e.
Proof.
  intros A S body x l Hx. induction l as [|y l IH]; intros Hin s; [contradiction|].
  simpl. destruct (body y s) as [s1|e1] eqn:E; simpl; [|now exists e1].
  destruct Hin as [-> | Hin]; [|now apply IH].
  destruct (Hx s) as [e He]. congruence.
Qed.

Section Feed.
Context {env : PyEnv}.

Lemma generate_feed_run_loop : forall w config dry_run systems mapping systems_list,
  load_json w (systems_file config) = Ok systems -> is_none systems = false ->
  load_json w (mapping_path config) = Ok mapping -> is_none mapping = false ->
  py_iter systems = Ok systems_list ->
  generate_feed_run w config dry_run
  = match for_each (generate_feed_body w config mapping) systems_list [] with
    | Raise e => quiet (Raise e)
    | Ok [] => quiet (Ok 1%Z)
    | Ok categories => emit_feed w config dry_run (feed_document config categories)
    end.
Proof.
  intros w config dry_run systems mapping systems_list Hs Ns Hm Nm Hi.
  unfold generate_feed_run. rewrite Hs. cbn [run_bind]. rewrite Ns, Hm.
  cbn [run_bind]. rewrite Nm, Hi. cbn [run_bind]. cbv zeta.
  destruct (for_each _ systems_list []) as [categories|]; cbn [run_bind];
    [|reflexivity].
  rewrite get_set_same.
  destruct categories as [|cat categories]; [reflexivity|].
  cbn [truthy is_empty negb].
  assert (E : JDict
                (set
                   (if negb (is_empty (feed_props_of config))
                    then set
                           [(lit "title", JStr (feed_title config));
                            (lit "longTitle", JStr (feed_title config));
                            (lit "description", JStr (feed_description config));
                            (lit "categories", JList [])]
                           (lit "props") (JDict (feed_props_of config))
                    else
                      [(lit "title", JStr (feed_title config));
                       (lit "longTitle", JStr (feed_title config));
                       (lit "description", JStr (feed_description config));
                       (lit "categories", JList [])])
                   (lit "categories") (JList (cat :: categories)))
              = feed_document config (cat :: categories)).
  { unfold feed_document, feed_props_of. cbv zeta.
    destruct (neogeo_bios_url config) as [[|c u]|],
             (psx_bios_urls config) as [[|u' urls]|]; reflexivity. }
  rewrite E. reflexivity.
Qed.

Lemma generate_feed_loop : forall w config dry_run systems mapping systems_list,
  load_json w (systems_file config) = Ok systems -> is_none systems = false ->
  load_json w (mapping_path config) = Ok mapping -> is_none mapping = false ->
  py_iter systems = Ok systems_list ->
  generate_feed w config dry_run
  = (categories <- for_each (generate_feed_body w config mapping) systems_list [] ;;
     if is_empty categories then Ok (1%Z, [])
     else results (emit_feed w config dry_run (feed_document config categories))).
Proof.
  intros w config dry_run systems mapping systems_list Hs Ns Hm Nm Hi.
  unfold generate_feed. rewrite (generate_feed_run_loop _ _ _ Hs Ns Hm Nm Hi).
  destruct (for_each _ systems_list []) as [[|cat categories]|]; reflexivity.
Qed.

(** The run that writes, case by case. *)
Lemma emit_feed_written : forall w config doc,
  emit_feed w config false doc = written_run w config doc.
Proof.
  intros w config doc. unfold emit_feed, written_run. cbv zeta.
  destruct (mkdir w (output_path config)); [reflexivity|].
  destruct (has_nul (output_path config)); [reflexivity|].
  destruct (opening w (output_path config)) as [[]|]; try reflexivity.
  destruct (writing w (output_path config) doc) as [[]|]; reflexivity.
Qed.

(** The last step returns, or raises an exception of a call that reaches
    outside. *)
Lemma emit_feed_outcome : forall w config dry_run doc,
  (exists rc outs, results (emit_feed w config dry_run doc) = Ok (rc, outs))
  \/ (exists e, results (emit_feed w config dry_run doc) = Raise e
                /\ raised_emitting w config dry_run e).
Proof.
  intros w config dry_run doc. unfold emit_feed, raised_emitting.
  destruct dry_run.
  - destruct (printing w doc) as [e|] eqn:Ep; [right | left; now eexists; eexists].
    exists e. split; [reflexivity | now exists doc].
  - cbv zeta. destruct (mkdir w (output_path config)) as [e|] eqn:Em.
    { right. exists e. split; [reflexivity | now left]. }
    destruct (has_nul (output_path config)) eqn:En.
    { right. exists ValueError. split; [reflexivity | right; left; now split]. }
    destruct (opening w (output_path config)) as [e|] eqn:Eo.
    { destruct e; try (left; now eexists; eexists);
        right; eexists; (split; [reflexivity | right; right; now left]). }
    destruct (writing w (output_path config) doc) as [e|] eqn:Ew;
      [|left; now eexists; eexists].
    destruct e; try (left; now eexists; eexists);
      right; eexists; (split; [reflexivity | right; right; right; now exists doc]).
Qed.

Lemma generate_feed_body_cases : forall w config mapping system acc result,
  generate_feed_body w config mapping system acc = Ok result ->
  result = acc
  \/ exists category,
       result = acc ++ [category] /\ category_of w config mapping system category.
Proof.
  intros w config mapping system acc result H. unfold generate_feed_body in H.
  destruct (map_system_name system mapping) as [system_type|] eqn:Es;
    cbn [bind] in H; [|discriminate].
  destruct (truthy system_type) eqn:Tt; cbn [negb] in H; [|left; now inversion H].
  destruct system as [ | | | | | | sys]; try discriminate.
  cbn [get_method bind] in H. fold (display_name sys) in H.
  destruct (load_json w _) as [games|] eqn:El; cbn [bind] in H; [|discriminate].
  destruct (is_none games); [left; now inversion H|].
  destruct (build_items _ _ _) as [items|] eqn:Eb; cbn [bind] in H; [|discriminate].
  destruct items as [|item items]; cbn [is_empty] in H; inversion H; subst;
    [now left|].
  right. eexists. split; [reflexivity|].
  exists sys, system_type, games, (item :: items).
  repeat split; auto. discriminate.
Qed.

Lemma generate_feed_loop_kept : forall w config mapping systems_list acc result,
  for_each (generate_feed_body w config mapping) systems_list acc = Ok result ->
  exists kept categories,
    result = acc ++ categories
    /\ subseq kept systems_list
    /\ Forall2 (category_of w config mapping) kept categories.
Proof.
  intros w config mapping.
  induction systems_list as [|system l IH]; intros acc result H; simpl in H.
  - inversion H; subst. exists [], []. rewrite app_nil_r.
    repeat split; constructor.
  - destruct (generate_feed_body _ _ _ system acc) as [acc'|] eqn:E;
      cbn [bind] in H; [|discriminate].
    apply IH in H as (kept & categories & -> & Hsub & Hall).
    apply generate_feed_body_cases in E as [-> | (category & -> & Hc)].
    + exists kept, categories.
      split; [reflexivity | split; [now apply subseq_skip | exact Hall]].
    + exists (system :: kept), (category :: categories).
      rewrite <- app_assoc.
      split; [reflexivity | split; [now apply subseq_keep | now constructor]].
Qed.

(** X16.  What the systems file holds decides how [generate_feed] ends
    before any game is read: [null] and the empty list, object or string
    give status 1 and no output; a number or a boolean cannot be iterated
    and raises [TypeError]; an object or a string that is not empty is
    iterated by keys or by characters, none of them a record, and raises
    [AttributeError]. *)
Theorem generate_feed_systems_value : forall w config dry_run systems mapping,
  load_json w (systems_file config) = Ok systems ->
  load_json w (mapping_path config) = Ok mapping -> is_none mapping = false ->
  match systems with
  | JNull | JList [] | JDict [] | JStr [] =>
      generate_feed w config dry_run = Ok (1%Z, [])
  | JBool _ | JInt _ | JFloat _ =>
      generate_feed w config dry_run = Raise TypeError
  | JDict (_ :: _) | JStr (_ :: _) =>
      generate_feed w config dry_run = Raise AttributeError
  | JList (_ :: _) => True
  end.
Proof.
  intros w config dry_run systems mapping Hs Hm Nm.
  destruct systems as [ | b | z | f | [|c s] | [|x l] | [|kv d]]; try exact I;
    try (rewrite generate_feed_eq, Hs; cbn [bind is_none]; rewrite ?Hm;
         cbn [bind]; rewrite ?Nm; reflexivity);
    rewrite (generate_feed_loop _ _ _ Hs eq_refl Hm Nm eq_refl); reflexivity.
Qed.

(** X17.  The dry run tells what the run that writes does.  Where the dry
    run returns 1, the other run returns 1 and touches no file.  Where the
    dry run prints a document, the other run makes the directory, and the
    exception of [mkdir] escapes; then a path with a NUL raises
    [ValueError]; a file that cannot be opened gives status 1 and is left as
    it was; a write that fails after the file was opened gives status 1 and
    leaves the file emptied or partial; otherwise this very document is
    written to the output path with status 0. *)
Theorem generate_feed_dry_run : forall w config rc outs,
  generate_feed w config true = Ok (rc, outs) ->
  generate_feed_run w config false
  = match outs with
    | [Printed doc] => written_run w config doc
    | _ => quiet (Ok rc)
    end.
Proof.
  intros w config rc outs H. unfold generate_feed, generate_feed_run in *.
  destruct (load_json w (systems_file config)) as [systems|];
    cbn [run_bind] in *; [|discriminate].
  destruct (is_none systems); [now inversion H|].
  destruct (load_json w (mapping_path config)) as [mapping|];
    cbn [run_bind] in *; [|discriminate].
  destruct (is_none mapping); [now inversion H|]. cbv zeta in *.
  destruct (py_iter systems) as [systems_list|]; cbn [run_bind] in *;
    [|discriminate].
  destruct (for_each _ systems_list []) as [categories|]; cbn [run_bind] in *;
    [|discriminate].
  destruct (negb (truthy _)); [now inversion H|].
  rewrite emit_feed_written. unfold emit_feed, results in H.
  destruct (printing w _); cbn [quiet returned emitted bind] in H;
    [discriminate|].
  now inversion H.
Qed.

(** X18.  A document that [generate_feed] emits is the feed of its
    configuration, entry by entry: [title] and [longTitle] both hold the
    feed title, then [description], then [categories], which is not empty,
    then [props] when a BIOS is configured; the status is then 0, and the
    document went to standard output in a dry run and to the output path
    otherwise. *)
Theorem generate_feed_document : forall w config dry_run rc outs o,
  generate_feed w config dry_run = Ok (rc, outs) -> In o outs ->
  rc = 0%Z
  /\ exists categories,
       categories <> []
       /\ o = (if dry_run then Printed (feed_document config categories)
               else Written (output_path config) (feed_document config categories)).
Proof.
  intros w config dry_run rc outs o H Hin.
  destruct (load_json w (systems_file config)) as [systems|] eqn:Hs;
    [|rewrite generate_feed_eq, Hs in H; discriminate].
  destruct (is_none systems) eqn:Ns;
    [rewrite generate_feed_eq, Hs in H; cbn [bind] in H;
     rewrite Ns in H; inversion H; subst; contradiction|].
  destruct (load_json w (mapping_path config)) as [mapping|] eqn:Hm;
    [|rewrite generate_feed_eq, Hs in H; cbn [bind] in H;
      rewrite Ns, Hm in H; discriminate].
  destruct (is_none mapping) eqn:Nm;
    [rewrite generate_feed_eq, Hs in H; cbn [bind] in H;
     rewrite Ns, Hm in H; cbn [bind] in H; rewrite Nm in H;
     inversion H; subst; contradiction|].
  destruct (py_iter systems) as [systems_list|] eqn:Hi;
    [|rewrite generate_feed_eq, Hs in H; cbn [bind] in H;
      rewrite Ns, Hm in H; cbn [bind] in H; rewrite Nm in H; cbv zeta in H;
      rewrite Hi in H; discriminate].
  rewrite (generate_feed_loop _ _ _ Hs Ns Hm Nm Hi) in H.
  destruct (for_each _ systems_list []) as [categories|]; cbn [bind] in H;
    [|discriminate].
  destruct categories as [|cat categories]; cbn [is_empty] in H;
    [inversion H; subst; contradiction|].
  apply emit_feed_results in H as [(-> & -> & _) | (-> & ->)]; [contradiction|].
  destruct Hin as [<- | []].
  split; [reflexivity|]. exists (cat :: categories).
  split; [discriminate | now destruct dry_run].
Qed.

(** X19.  The categories of an emitted feed follow the systems list: they
    are the categories of some of its systems, one each and in the order of
    the list; each comes from a system mapped to a type that is not empty
    whose games file gave at least one item, and is titled by the category
    prefix followed by the display name of the system. *)
Theorem generate_feed_categories : forall w config dry_run rc outs o,
  generate_feed w config dry_run = Ok (rc, outs) -> In o outs ->
  exists systems mapping systems_list kept categories,
    load_json w (systems_file config) = Ok systems
    /\ load_json w (mapping_path config) = Ok mapping
    /\ py_iter systems = Ok systems_list
    /\ subseq kept systems_list
    /\ Forall2 (category_of w config mapping) kept categories
    /\ field (doc_of o) (lit "categories") = JList categories.
Proof.
  intros w config dry_run rc outs o H Hin.
  apply generate_feed_inv in H
    as [[_ ->] | (systems & mapping & systems_list & categories & doc
                  & Hs & Hm & Hi & Hf & _ & _ & Ho & Hc & _)]; [contradiction|].
  apply generate_feed_loop_kept in Hf as (kept & cats & -> & Hsub & Hall).
  exists systems, mapping, systems_list, kept, cats.
  repeat split; auto.
  destruct Ho as [-> | ->]; destruct Hin as [<- | []]; exact Hc.
Qed.

(** X20.  One bad system fails the whole feed: when the systems list holds
    an element that is not a record, or a mapped system whose games file is
    not UTF-8, [generate_feed] raises and emits nothing, whatever the other
    systems are. *)
Theorem generate_feed_bad_system : forall w config dry_run systems_list mapping system,
  load_json w (systems_file config) = Ok (JList systems_list) ->
  load_json w (mapping_path config) = Ok mapping -> is_none mapping = false ->
  In system systems_list ->
  is_dict system = false
  \/ (exists sys system_type,
        system = JDict sys
        /\ map_system_name system mapping = Ok system_type
        /\ truthy system_type = true
        /\ files w (games_file_of config sys) = Undecodable) ->
  exists e, generate_feed w config dry_run = Raise e.
Proof.
  intros w config dry_run systems_list mapping system Hs Hm Nm Hin Hbad.
  rewrite (generate_feed_loop _ _ _ Hs eq_refl Hm Nm eq_refl).
  destruct (@for_each_raises _ _ (generate_feed_body w config mapping)
              system systems_list) with (s := @nil json) as [e He];
    [|exact Hin|rewrite He; now exists e].
  intro acc. unfold generate_feed_body.
  destruct Hbad as [Hd | (sys & system_type & -> & Et & Tt & Hf)].
  - exists AttributeError. destruct system; try discriminate; reflexivity.
  - assert (Hl : exists e, load_json w (games_file_of config sys) = Raise e).
    { unfold load_json. destruct (has_nul _); [now exists ValueError|].
      rewrite Hf. now exists UnicodeDecodeError. }
    destruct Hl as [e He]. exists e. rewrite Et. cbn [bind]. rewrite Tt.
    cbn [negb get_method bind]. fold (display_name sys).
    fold (games_file_of config sys). now rewrite He.
Qed.

Lemma generate_feed_loop_total : forall w config mapping systems_list acc,
  forallb well_formed_system systems_list = true ->
  (forall sys system_type,
     In (JDict sys) systems_list ->
     map_system_name (JDict sys) (JDict mapping) = Ok system_type ->
     truthy system_type = true ->
     exists games,
       load_json w (games_file_of config sys) = Ok games
       /\ well_formed_games games = true) ->
  exists categories,
    for_each (generate_feed_body w config (JDict mapping)) systems_list acc
    = Ok categories.
Proof.
  intros w config mapping.
  induction systems_list as [|system l IH]; intros acc Hw Hg; [now eexists|].
  simpl in Hw. apply andb_true_iff in Hw as [Hsys Hw].
  assert (Hl : forall sys system_type,
                 In (JDict sys) l ->
                 map_system_name (JDict sys) (JDict mapping) = Ok system_type ->
                 truthy system_type = true ->
                 exists games,
                   load_json w (games_file_of config sys) = Ok games
                   /\ well_formed_games games = true)
    by (intros sys system_type Hin; apply Hg; now right).
  destruct system as [ | | | | | | sys]; try discriminate.
  specialize (Hg sys (lookup_order sys mapping) (or_introl eq_refl)
                 (map_system_name_lookup _ mapping Hsys)).
  simpl. unfold generate_feed_body at 1.
  rewrite (map_system_name_lookup _ mapping Hsys). cbn [bind].
  destruct (truthy (lookup_order sys mapping)); cbn [negb];
    [|cbn [bind]; now apply IH].
  cbn [get_method bind]. fold (display_name sys).
  fold (games_file_of config sys).
  destruct (Hg eq_refl) as (games & -> & Hgames). cbn [bind].
  destruct games as [ | | | | | games | ]; try discriminate;
    cbn [is_none bind]; [now apply IH|].
  unfold build_items. cbn [py_iter bind].
  destruct (build_items_loop (lookup_order sys mapping) (rom_prefix_url config)
              games [] Hgames) as (items & -> & _).
  cbn [bind app]. destruct (is_empty items); cbn [bind]; now apply IH.
Qed.

(** X21.  Input of the data model whose files load never makes
    [generate_feed] raise before the feed is assembled: when the systems
    file holds a list of records with text fields, the mapping file a
    table, and the games file of every mapped system loads and holds a list
    of game entries or [null], the run returns a status, or it raises an
    exception of its last step, raised by a call that reaches outside: the
    printing of the feed, or the making of the directory, the opening and
    the writing of the output file. *)
Theorem generate_feed_total : forall w config systems_list mapping dry_run,
  load_json w (systems_file config) = Ok (JList systems_list) ->
  load_json w (mapping_path config) = Ok (JDict mapping) ->
  forallb well_formed_system systems_list = true ->
  (forall sys system_type,
     In (JDict sys) systems_list ->
     map_system_name (JDict sys) (JDict mapping) = Ok system_type ->
     truthy system_type = true ->
     exists games,
       load_json w (games_file_of config sys) = Ok games
       /\ well_formed_games games = true) ->
  (exists rc outs, generate_feed w config dry_run = Ok (rc, outs))
  \/ (exists e, generate_feed w config dry_run = Raise e
                /\ raised_emitting w config dry_run e).
Proof.
  intros w config systems_list mapping dry_run Ls Lm Hw Hg.
  destruct (generate_feed_loop_total w config mapping systems_list [] Hw Hg)
    as [categories Hc].
  rewrite (generate_feed_loop _ _ _ Ls eq_refl Lm eq_refl eq_refl), Hc.
  cbn [bind].
  destruct (is_empty categories); [left; now eexists; eexists|].
  apply emit_feed_outcome.
Qed.

End Feed.

(* ------------------------------------------------------------------ *)
(** ** The further properties at sample inputs *)

Lemma build_config_psx_urls_clean_witness :
  psx_bios_urls (build_config psx_environ sample_utcnow)
  = Some [lit "https://b/one.bin"; lit "https://b/two.bin"; lit "https://b/three.bin"]
  /\ Forall (fun url => url <> [] /\ strip url = url /\ free_of (chr ",") url = true)
            [lit "https://b/one.bin"; lit "https://b/two.bin";
             lit "https://b/three.bin"].
Proof.
  split; [reflexivity|].
  apply (build_config_psx_urls_clean psx_environ sample_utcnow). reflexivity.
Defined.

Lemma resolve_with_environment_prefix_witness :
  slash_environ (lit "ROM_PREFIX_URL") = Some (lit "https://cdn/roms//")
  /\ resolve_rom_url game_with_path
       (rom_prefix_url (build_config slash_environ sample_utcnow))
     = Ok (JStr (lit "https://cdn/roms/snes/a.sfc")).
Proof.
  split; [reflexivity|].
  refine (proj1 (resolve_with_environment_prefix slash_environ sample_utcnow
                   (raw := lit "https://cdn/roms//") game_with_path
                   (p := lit "//snes/a.sfc") eq_refl eq_refl eq_refl _)).
  discriminate.
Defined.

Lemma clean_title_result_witness :
  clean_title (JStr (lit " Sonic.zip ")) JNull = Ok (JStr (lit "Sonic"))
  /\ (JStr (lit "Sonic") = JNull
      \/ exists title,
           JStr (lit "Sonic") = JStr title /\ title <> [] /\ strip title = title).
Proof.
  split; [reflexivity|].
  apply (clean_title_result (JStr (lit " Sonic.zip ")) JNull). reflexivity.
Defined.

Lemma derive_title_last_segment_witness :
  free_of (chr "/") (lit "a%20b.zip") = true
  /\ derive_title_from_url (JStr (lit "https://x/y/a%20b.zip"))
     = Ok (JStr (lit "a b")).
Proof.
  split; [reflexivity|].
  apply (derive_title_last_segment (lit "https://x/y") (lit "a%20b.zip")).
  reflexivity.
Defined.

Lemma title_only_entries_dropped_witness :
  title_only (JStr (lit "Untitled")) = true
  /\ build_items (JList sample_entries) (JStr (lit "nes")) None
     = build_items
         (JList [JList [JStr (lit "Mega Example (USA).zip");
                        JStr (lit "https://example.com/roms/Mega%20Example%20%28USA%29.zip");
                        JStr (lit "512K")];
                 JDict [(lit "name", JStr (lit "Relative"));
                        (lit "path", JStr (lit "/roms/r.zip"))]])
         (JStr (lit "nes")) None.
Proof.
  split; [reflexivity|].
  apply (title_only_entries_dropped
           [JList [JStr (lit "Mega Example (USA).zip");
                   JStr (lit "https://example.com/roms/Mega%20Example%20%28USA%29.zip");
                   JStr (lit "512K")]]
           (JStr (lit "Untitled"))
           [JDict [(lit "name", JStr (lit "Relative"));
                   (lit "path", JStr (lit "/roms/r.zip"))]]).
  reflexivity.
Defined.

Lemma build_items_item_shape_witness :
  exists items,
    build_items (JList sample_entries) (JStr (lit "nes")) None = Ok items
    /\ Forall (item_shape (JStr (lit "nes"))) items
    /\ (forall entries,
          py_iter (JList sample_entries) = Ok entries ->
          (List.length items <= List.length entries)%nat).
Proof.
  eexists. split; [vm_compute; reflexivity|].
  apply (build_items_item_shape (JList sample_entries) (JStr (lit "nes")) None).
  vm_compute. reflexivity.
Defined.

Lemma map_system_name_from_table_witness :
  map_system_name (JDict system_A) (JDict mapping_empty_A) = Ok (JStr (lit "x"))
  /\ (JStr (lit "x") = JNull
      \/ exists sys m k,
           JDict system_A = JDict sys /\ JDict mapping_empty_A = JDict m
           /\ In (k, JStr (lit "x")) m /\ key_matches sys k).
Proof.
  split; [reflexivity|].
  apply (map_system_name_from_table (JDict system_A) (JDict mapping_empty_A)).
  reflexivity.
Defined.

Lemma generate_feed_systems_value_witness :
  load_json object_world (systems_file (build_config no_environ sample_utcnow))
  = Ok (JDict [(lit "systems", sample_systems)])
  /\ generate_feed object_world (build_config no_environ sample_utcnow) true
     = Raise AttributeError.
Proof.
  split; [reflexivity|].
  apply (generate_feed_systems_value
           object_world (build_config no_environ sample_utcnow) true
           (systems := JDict [(lit "systems", sample_systems)])
           (mapping := sample_mapping));
    reflexivity.
Defined.

Lemma generate_feed_document_witness :
  let config := build_config no_environ sample_utcnow in
  generate_feed sample_world config true
  = Ok (0%Z, [Printed (feed_document config [sample_category])])
  /\ (0%Z = 0%Z
      /\ exists categories,
           categories <> []
           /\ Printed (feed_document config [sample_category])
              = Printed (feed_document config categories)).
Proof.
  intro config. split; [vm_compute; reflexivity|].
  apply (generate_feed_document sample_world config true
           (outs := [Printed (feed_document config [sample_category])]));
    [vm_compute; reflexivity | left; reflexivity].
Defined.

Lemma generate_feed_categories_witness :
  let config := build_config no_environ sample_utcnow in
  exists systems mapping systems_list kept categories,
    load_json sample_world (systems_file config) = Ok systems
    /\ load_json sample_world (mapping_path config) = Ok mapping
    /\ py_iter systems = Ok systems_list
    /\ subseq kept systems_list
    /\ Forall2 (category_of sample_world config mapping) kept categories
    /\ field (doc_of (Printed (feed_document config [sample_category])))
             (lit "categories")
       = JList categories.
Proof.
  intro config.
  apply (generate_feed_categories sample_world config true (rc := 0%Z)
           (outs := [Printed (feed_document config [sample_category])]));
    [vm_compute; reflexivity | left; reflexivity].
Defined.

Lemma generate_feed_bad_system_witness :
  files undecodable_world (lit "/mnt/rgsx/saves/ports/RGSX/games/Mega Drive.json")
  = Undecodable
  /\ exists e,
       generate_feed undecodable_world (build_config no_environ sample_utcnow) false
       = Raise e.
Proof.
  split; [reflexivity|].
  apply (generate_feed_bad_system
           undecodable_world (build_config no_environ sample_utcnow) false
           (systems_list := elements sample_systems)
           (mapping := sample_mapping)
           (system := JDict [(lit "name", JStr (lit "Sega Genesis"));
                             (lit "platform_name", JStr (lit "Mega Drive"))]));
    [reflexivity | reflexivity | reflexivity | left; reflexivity |].
  right. eexists. exists (JStr (lit "genesis")).
  repeat split; vm_compute; reflexivity.
Defined.

Lemma generate_feed_total_witness :
  let config := build_config no_environ sample_utcnow in
  (exists rc outs, generate_feed sample_world config true = Ok (rc, outs))
  \/ (exists e, generate_feed sample_world config true = Raise e
                /\ raised_emitting sample_world config true e).
Proof.
  intro config.
  apply (generate_feed_total sample_world config
           (systems_list := elements sample_systems)
           (mapping := [(lit "Sega Genesis", JStr (lit "genesis"))]));
    try reflexivity.
  intros sys system_type [E | []] _ _. injection E as <-.
  eexists. split; vm_compute; reflexivity.
Defined.

Lemma generate_feed_dry_run_witness :
  let config := build_config no_environ sample_utcnow in
  generate_feed full_disk_world config true
  = Ok (0%Z, [Printed (feed_document config [sample_category])])
  /\ generate_feed_run full_disk_world config false
     = {| returned := Ok 1%Z; emitted := []; spoiled := [DEFAULT_OUTPUT_PATH] |}.
Proof.
  intro config.
  assert (H : generate_feed full_disk_world config true
              = Ok (0%Z, [Printed (feed_document config [sample_category])]))
    by (vm_compute; reflexivity).
  split; [exact H|].
  exact (generate_feed_dry_run full_disk_world config H).
Defined.
